(** * JEOL scripts: the stage-position logger and the beam-blank toggle

    A shallow embedding of [stage_logger.py] and [beam_blank.py].

    Python objects become records, the interpreter's mutable state is
    threaded through a small state-and-exception monad, and everything the
    scripts obtain from outside (the microscope driver, the operator's
    keyboard, interrupt signals, the duration of a hardware call) is
    supplied by an explicit script of answers, so that every function of
    the model can be evaluated on a concrete scenario.

    Library calls are modelled by what the scripts can observe of them:
    [float()], [pathlib.Path()], [str.strip()], [str.lower()] and the
    parser of hotkey names of the [keyboard] module are parameters of the
    development, [time.sleep] validates its argument as CPython does, and
    the file system is a finite map from paths to directories and files
    whose contents are the rows that have reached the disk; the rows
    handed to the open log file and still in its buffer are kept beside
    it. *)

From Stdlib Require Import QArith Qminmax Ascii String.
From stdpp Require Import gmap strings list.

(** ** Python values *)

(** A Python [float]: the finite values are kept as rationals, which is
    all the scripts observe of them (sign, comparison with zero, a
    reciprocal and sums of durations). *)
Inductive pyfloat : Type :=
  | Fin (q : Q)
  | Inf (negative : bool)
  | NaN.

(** The exceptions the scripts can meet: the subclasses of [Exception]
    that the library calls raise ([DriverError] stands for whatever the
    microscope driver raises), and [SystemExit], which [except Exception]
    does not catch. *)
Inductive exception : Type :=
  | ValueError
  | ZeroDivisionError
  | OverflowError
  | IndexError
  | AttributeError
  | OSError
  | EOFError
  | DriverError.

Inductive exn : Type :=
  | Exception (e : exception)
  | SystemExit (code : Z).

Coercion Exception : exception >-> exn.

(** [x > 0] on floats. *)
Definition float_gt0 (x : pyfloat) : bool :=
  match x with
  | Fin q => negb (Qle_bool q 0)
  | Inf negative => negb negative
  | NaN => false
  end.

(** [1 / x] on floats: only a zero divisor raises. *)
Definition float_inv (x : pyfloat) : exception + pyfloat :=
  match x with
  | Fin q => if Qeq_bool q 0 then inl ZeroDivisionError else inr (Fin (/ q))
  | Inf _ => inr (Fin 0)
  | NaN => inr NaN
  end.

(** The range of CPython's timestamps: a signed 64-bit count of
    nanoseconds. *)
Definition PyTime_MAX : Q := 9223372036854775807 # 1000000000.

(** What [time.sleep(x)] raises, if anything: the argument is first
    converted to a timestamp (NaN is a [ValueError], a value out of range
    an [OverflowError]) and then required to be non-negative. *)
Definition sleep_error (x : pyfloat) : option exception :=
  match x with
  | NaN => Some ValueError
  | Inf _ => Some OverflowError
  | Fin q =>
      if Qle_bool (- PyTime_MAX) q && Qle_bool q PyTime_MAX
      then (if Qle_bool 0 q then None else Some ValueError)
      else Some OverflowError
  end.

(** ** Strings *)

Definition is_space (c : ascii) : bool :=
  let n := nat_of_ascii c in
  ((9 <=? n)%nat && (n <=? 13)%nat) || ((28 <=? n)%nat && (n <=? 32)%nat).

Fixpoint lstrip (s : string) : string :=
  match s with
  | EmptyString => EmptyString
  | String c s' => if is_space c then lstrip s' else s
  end.

(** [rstrip] as a right fold: a blank is kept only when something
    follows it. *)
Fixpoint rstrip (s : string) : string :=
  match s with
  | EmptyString => EmptyString
  | String c s' =>
      match rstrip s' with
      | EmptyString => if is_space c then EmptyString else String c EmptyString
      | r => String c r
      end
  end.

(** [str.strip()] and [str.lower()] themselves are parameters of the
    scripts' model.  On ASCII text, which is what the examples are
    written in, they are these. *)
Definition str_strip (s : string) : string := rstrip (lstrip s).

Definition lower_ascii (c : ascii) : ascii :=
  let n := nat_of_ascii c in
  if (65 <=? n)%nat && (n <=? 90)%nat then ascii_of_nat (n + 32) else c.

Fixpoint str_lower (s : string) : string :=
  match s with
  | EmptyString => EmptyString
  | String c s' => String (lower_ascii c) (str_lower s')
  end.

(** A decimal literal [[+-]digits[.digits]], the fragment of [float()]
    used to run the model on concrete command lines.  Anything else is
    left to the parser the development is parameterised by. *)
Definition digit_of (c : ascii) : option Z :=
  let n := nat_of_ascii c in
  if (48 <=? n)%nat && (n <=? 57)%nat then Some (Z.of_nat (n - 48)) else None.

Fixpoint digits_from (acc : Z) (scale : positive) (frac : bool) (seen : bool)
    (s : string) : option Q :=
  match s with
  | EmptyString => if seen then Some (acc # scale) else None
  | String c s' =>
      match digit_of c with
      | Some d =>
          digits_from (10 * acc + d) (if frac then 10 * scale else scale)%positive
            frac true s'
      | None =>
          if Ascii.eqb c "."%char && negb frac
          then digits_from acc scale true seen s'
          else None
      end
  end.

Definition float_literal (s : string) : option pyfloat :=
  match str_strip s with
  | String "-" s' => (fun q => Fin (- q)) <$> digits_from 0 1 false false s'
  | String "+" s' => Fin <$> digits_from 0 1 false false s'
  | s' => Fin <$> digits_from 0 1 false false s'
  end.

(** ** The file system *)

(** A path is the list of its components, outermost first; the empty
    list is the anchor (the root, or the working directory of a relative
    path), which always exists and is its own parent. *)
Abbreviation path := (list string).

Definition parent (p : path) : path := removelast p.

(** [pathlib.Path] on the strings used in the examples: the components
    between separators, empty ones and [.] dropped. *)
Fixpoint split_path (cur : string) (s : string) : path :=
  let close :=
    if (cur =? "")%string || (cur =? ".")%string then [] else [cur] in
  match s with
  | EmptyString => close
  | String c s' =>
      if Ascii.eqb c "/"%char || Ascii.eqb c "\"%char
      then close ++ split_path "" s'
      else split_path (cur ++ String c EmptyString)%string s'
  end.

Definition path_of_string (s : string) : path := split_path "" s.

(** One field of a CSV row. *)
Inductive cell : Type :=
  | CName (s : string)
  | CTime (t : Q)
  | CNum (v : Q).

Abbreviation row := (list cell).

Inductive node : Type :=
  | Dir
  | File (rows : list row).

Abbreviation filesystem := (gmap path node).

Definition node_at (fs : filesystem) (p : path) : option node :=
  match p with
  | [] => Some Dir
  | _ => fs !! p
  end.

(** [Path.exists()]. *)
Definition exists_ (fs : filesystem) (p : path) : bool :=
  match node_at fs p with
  | Some _ => true
  | None => false
  end.

(** [Path.mkdir(parents=True, exist_ok=True)]: every missing ancestor is
    created, outermost first; a file in the way is an [OSError]. *)
Fixpoint mkdir_from (done : path) (todo : path) (fs : filesystem)
    : exception + filesystem :=
  match todo with
  | [] => inr fs
  | c :: todo' =>
      let p := done ++ [c] in
      match fs !! p with
      | None => mkdir_from p todo' (<[p := Dir]> fs)
      | Some Dir => mkdir_from p todo' fs
      | Some (File _) => inl OSError
      end
  end.

Definition mkdir_parents (d : path) (fs : filesystem) : exception + filesystem :=
  mkdir_from [] d fs.

(** [open(p, 'a')]: an existing file is opened as it is, a missing one is
    created empty inside an existing directory. *)
Definition open_append (p : path) (fs : filesystem) : exception + filesystem :=
  match node_at fs p with
  | Some (File _) => inr fs
  | Some Dir => inl OSError
  | None =>
      match node_at fs (parent p) with
      | Some Dir => inr (<[p := File []]> fs)
      | _ => inl OSError
      end
  end.

(** Rows written through a handle opened in append mode go after the
    rows already there. *)
Definition append_rows (p : path) (rs : list row) (fs : filesystem)
    : filesystem :=
  match fs !! p with
  | Some (File rows) => <[p := File (rows ++ rs)]> fs
  | _ => fs
  end.

(** [Path.touch()]. *)
Definition touch (p : path) (fs : filesystem) : exception + filesystem :=
  match node_at fs p with
  | Some _ => inr fs
  | None =>
      match node_at fs (parent p) with
      | Some Dir => inr (<[p := File []]> fs)
      | _ => inl OSError
      end
  end.

(** [Path.unlink()]. *)
Definition unlink (p : path) (fs : filesystem) : exception + filesystem :=
  match node_at fs p with
  | Some (File _) => inr (delete p fs)
  | _ => inl OSError
  end.

(** ** Observable events *)

(** What the scripts print. *)
Inductive message : Type :=
  | MsgReceivedSignal (signum : Z)
  | MsgConnected
  | MsgConnectFailed (e : exception)
  | MsgErrorReading (e : exception)
  | MsgCreatedLog (p : path)
  | MsgAppendingLog (p : path)
  | MsgSetupError (e : exception)
  | MsgWriteError (e : exception)
  | MsgStarting (p : path) (i : pyfloat)
  | MsgInitFailed
  | MsgSetupFailed
  | MsgLogged (n : nat) (rate : Q)
  | MsgUnexpected (e : exception)
  | MsgCleaningUp
  | MsgClosedLog (p : path)
  | MsgTemCloseError (e : exception)
  | MsgCleanupComplete
  | MsgConfigTitle
  | MsgInvalidInterval (arg : string) (used : pyfloat)
  | MsgCurrentConfiguration
  | MsgOutputFile (s : string)
  | MsgOutputDirectory (p : path)
  | MsgLoggingInterval (i hz : pyfloat)
  | MsgFileWillBe (appended : bool)
  | MsgWritable
  | MsgDirectoryError (e : exception)
  | MsgOptions
  | MsgMustBePositive
  | MsgInvalidNumber
  | MsgExiting
  | MsgInvalidChoice
  | MsgSeparator
  | MsgInstructions
  | MsgPleaseYN
  | MsgTitle
  | MsgAborted
  | MsgStartingLogger
  | MsgCompleted
  | MsgFailed.

(** The methods of the microscope driver the scripts name. *)
Inductive tem_call : Type :=
  | GetPos
  | Connect
  | Disconnect
  | Close.

(** One entry of the trace: a printed line, a call on the driver, an
    operation on the log file, a call of [time.sleep], or a store to the
    [running] attribute. *)
Inductive event : Type :=
  | EvPrint (m : message)
  | EvTem (c : tem_call)
  | EvOpen (p : path)
  | EvWrite (p : path) (r : row)
  | EvFileClose (p : path)
  | EvSleep (d : pyfloat)
  | EvSetRunning (b : bool).

(** ** The world outside the script *)

(** The imported driver module [TEM3]: which of the attributes probed by
    [cleanup] it has, and what calling them raises. *)
Record driver : Type := {
  has_disconnect : bool;
  has_close : bool;
  connect_call : option exception;
  close_call : option exception;
}.

(** The fixed part of a scenario. *)
Record platform : Type := {
  TEM3 : driver;
  (** what binding the driver in [initialize_tem] raises, if anything *)
  tem_binding : option exception;
  (** what closing the log file raises, if anything *)
  close_error : option exception;
}.

Record world : Type := {
  host : platform;
  fs : filesystem;
  trace : list event;
  stdin : list string;
  clock : Q;
  (** the rows handed to the open log file that have not reached the
      disk yet: [writerow] puts a row in the buffer of the file object,
      and [flush] and [close] write the buffer out *)
  unflushed : list row;
}.

Definition with_fs (f : filesystem) (w : world) : world :=
  {| host := host w; fs := f; trace := trace w; stdin := stdin w;
     clock := clock w; unflushed := unflushed w |}.

Definition with_trace (t : list event) (w : world) : world :=
  {| host := host w; fs := fs w; trace := t; stdin := stdin w;
     clock := clock w; unflushed := unflushed w |}.

Definition with_stdin (i : list string) (w : world) : world :=
  {| host := host w; fs := fs w; trace := trace w; stdin := i;
     clock := clock w; unflushed := unflushed w |}.

Definition with_clock (c : Q) (w : world) : world :=
  {| host := host w; fs := fs w; trace := trace w; stdin := stdin w;
     clock := c; unflushed := unflushed w |}.

Definition with_unflushed (u : list row) (w : world) : world :=
  {| host := host w; fs := fs w; trace := trace w; stdin := stdin w;
     clock := clock w; unflushed := u |}.

(** ** The monad *)

(** A computation returns, raises, or is still running when the script
    of the world's answers ends. *)
Inductive outcome (A : Type) : Type :=
  | Ret (a : A)
  | Raise (e : exn)
  | Exhausted.

Arguments Ret {A} a.
Arguments Raise {A} e.
Arguments Exhausted {A}.

Definition M (S A : Type) : Type := S -> outcome A * S.

Definition ret {S A : Type} (a : A) : M S A := fun s => (Ret a, s).

Definition raise {S A : Type} (e : exn) : M S A := fun s => (Raise e, s).

Definition exhausted {S A : Type} : M S A := fun s => (Exhausted, s).

Definition bind {S A B : Type} (c : M S A) (k : A -> M S B) : M S B :=
  fun s =>
    match c s with
    | (Ret a, s') => k a s'
    | (Raise e, s') => (Raise e, s')
    | (Exhausted, s') => (Exhausted, s')
    end.

Notation "'do' x <- c ; k" := (bind c (fun x => k))
  (at level 10, x name, c at level 100, k at level 200).

Definition gets {S A : Type} (f : S -> A) : M S A := fun s => (Ret (f s), s).

Definition modify {S : Type} (f : S -> S) : M S unit := fun s => (Ret tt, f s).

(** [try: body except Exception as e: handler e]. *)
Definition try_except {S A : Type} (body : M S A)
    (handler : exception -> M S A) : M S A :=
  fun s =>
    match body s with
    | (Raise (Exception e), s') => handler e s'
    | r => r
    end.

(** [try: body finally: final]: [final] runs whether [body] returned or
    raised, and an exception of [final] replaces the result. *)
Definition try_finally {S A : Type} (body : M S A) (final : M S unit) : M S A :=
  fun s =>
    match body s with
    | (Exhausted, s') => (Exhausted, s')
    | (r, s') =>
        match final s' with
        | (Ret _, s'') => (r, s'')
        | (Raise e, s'') => (Raise e, s'')
        | (Exhausted, s'') => (Exhausted, s'')
        end
    end.

(** Lifting the answer of a library call. *)
Definition of_sum {S A : Type} (r : exception + A) : M S A :=
  match r with
  | inl e => raise e
  | inr a => ret a
  end.

(** *** Primitives on the world *)

Definition emit (e : event) : M world unit :=
  modify (fun w => with_trace (trace w ++ [e]) w).

Definition print (m : message) : M world unit := emit (EvPrint m).

(** [time.time()] and [datetime.now()] read the same clock. *)
Definition time_time : M world Q := gets clock.

Definition advance (d : Q) : M world unit :=
  modify (fun w => with_clock (clock w + d)%Q w).

(** A file-system call: its effect is kept only when it succeeds. *)
Definition fs_call (op : filesystem -> exception + filesystem) : M world unit :=
  do f <- gets fs;
  do f' <- of_sum (op f);
  modify (with_fs f').

(** [input()]: the operator's next line, or [EOFError] at end of input. *)
Definition input : M world string :=
  do i <- gets stdin;
  match i with
  | [] => raise EOFError
  | l :: i' => do _ <- modify (with_stdin i'); ret l
  end.

(** ** stage_logger.py: [StagePositionLogger] *)

(** The open log file. *)
Record handle : Type := {
  h_path : path;
  h_closed : bool;
}.

(** The attributes of a [StagePositionLogger]. *)
Record logger : Type := {
  output_file : path;
  interval : pyfloat;
  running : bool;
  tem : option driver;
  csv_writer : option (list string);
  csv_file : option handle;
}.

(** The state a method runs in: the object and the world. *)
Record session : Type := {
  self : logger;
  env : world;
}.

Definition with_self (l : logger) (s : session) : session :=
  {| self := l; env := env s |}.

Definition set_running (b : bool) (l : logger) : logger :=
  {| output_file := output_file l; interval := interval l; running := b;
     tem := tem l; csv_writer := csv_writer l; csv_file := csv_file l |}.

Definition set_tem (t : option driver) (l : logger) : logger :=
  {| output_file := output_file l; interval := interval l;
     running := running l; tem := t; csv_writer := csv_writer l;
     csv_file := csv_file l |}.

Definition set_csv_writer (w : option (list string)) (l : logger) : logger :=
  {| output_file := output_file l; interval := interval l;
     running := running l; tem := tem l; csv_writer := w;
     csv_file := csv_file l |}.

Definition set_csv_file (f : option handle) (l : logger) : logger :=
  {| output_file := output_file l; interval := interval l;
     running := running l; tem := tem l; csv_writer := csv_writer l;
     csv_file := f |}.

(** A computation on the world, run from inside a method. *)
Definition io {A : Type} (c : M world A) : M session A :=
  fun s =>
    let (r, w) := c (env s) in
    (r, {| self := self s; env := w |}).

(** An attribute read and an attribute store. *)
Definition attr {A : Type} (f : logger -> A) : M session A :=
  gets (fun s => f (self s)).

Definition store (f : logger -> logger) : M session unit :=
  modify (fun s => with_self (f (self s)) s).

(** What the world answers to one [GetPos()] call. *)
Inductive read_result : Type :=
  | ReadOk (stage_data : list Q)
  | ReadRaises.

(** The world's part in one iteration of the logging loop: the answer and
    the duration of the stage read, the outcome and the duration of the
    write, and the interrupts delivered between the test of the flag and
    the read, while the script waits in the read, and in the sleep. *)
Record tick : Type := {
  reading : read_result;
  read_time : Q;
  write_error : option exception;
  write_time : Q;
  sigint_before_read : nat;
  sigint_in_read : nat;
  sigint_in_sleep : nat;
}.

(** The world's part in a whole run: the interrupts delivered before the
    loop is entered, and one [tick] per iteration. *)
Record script : Type := {
  early_sigint : nat;
  ticks : list tick;
}.

(** The dictionary built by [get_stage_position]. *)
Record position : Type := {
  timestamp : Q;
  x_position : Q;
  y_position : Q;
  z_position : Q;
  alpha_tilt : Q;
  beta_tilt : Q;
}.

Definition fieldnames : list string :=
  ["timestamp"; "x_position"; "y_position"; "z_position"; "alpha_tilt";
   "beta_tilt"].

(** [DictWriter.writeheader] and [DictWriter.writerow]: the names, and
    the values of a dictionary, in the order of [fieldnames]. *)
Definition header : row := CName <$> fieldnames.

Definition row_of (d : position) : row :=
  [CTime (timestamp d); CNum (x_position d); CNum (y_position d);
   CNum (z_position d); CNum (alpha_tilt d); CNum (beta_tilt d)].

Definition SIGINT : Z := 2.

(** [signal_handler]: a message, and the flag. *)
Definition signal_handler (signum : Z) : M session unit :=
  do _ <- io (print (MsgReceivedSignal signum));
  do _ <- io (emit (EvSetRunning false));
  store (set_running false).

(** [n] interrupts delivered one after the other. *)
Fixpoint deliver (n : nat) : M session unit :=
  match n with
  | O => ret tt
  | S n' => do _ <- signal_handler SIGINT; deliver n'
  end.

Definition initialize_tem : M session bool :=
  try_except
    (do h <- io (gets host);
     do _ <- match tem_binding h with
             | Some e => raise e
             | None => store (set_tem (Some (TEM3 h)))
             end;
     do _ <- io (print MsgConnected);
     ret true)
    (fun e =>
       do _ <- io (print (MsgConnectFailed e));
       ret false).

(** [stage_data[i]]. *)
Definition item {S : Type} (stage_data : list Q) (i : nat) : M S Q :=
  match stage_data !! i with
  | Some v => ret v
  | None => raise IndexError
  end.

(** [self.tem.Stage3().GetPos()], answered by the world. *)
Definition Stage3_GetPos (r : read_result) (d : Q) : M session (list Q) :=
  do t <- attr tem;
  match t with
  | None => raise AttributeError
  | Some _ =>
      do _ <- io (emit (EvTem GetPos));
      do _ <- io (advance d);
      match r with
      | ReadOk stage_data => ret stage_data
      | ReadRaises => raise DriverError
      end
  end.

Definition get_stage_position (r : read_result) (d : Q)
    : M session (option position) :=
  try_except
    (do stage_data <- Stage3_GetPos r d;
     do now <- io time_time;
     do x <- item stage_data 0;
     do y <- item stage_data 1;
     do z <- item stage_data 2;
     do a <- item stage_data 3;
     do b <- item stage_data 4;
     ret (Some {| timestamp := now; x_position := x; y_position := y;
                  z_position := z; alpha_tilt := a; beta_tilt := b |}))
    (fun e =>
       do _ <- io (print (MsgErrorReading e));
       ret None).

(** A row handed to the open file: it goes to the buffer of the file
    object, not to the disk. *)
Definition write (h : handle) (r : row) : M world unit :=
  do _ <- emit (EvWrite (h_path h) r);
  modify (fun w => with_unflushed (unflushed w ++ [r]) w).

(** [flush()] of the open file, [e] being what the write to the disk
    raises, if anything: the buffer is written out when it succeeds, and
    kept for the next flush when it fails. *)
Definition flush (h : handle) (e : option exception) : M world unit :=
  match e with
  | Some e => raise e
  | None =>
      modify (fun w =>
        with_unflushed []
          (with_fs (append_rows (h_path h) (unflushed w) (fs w)) w))
  end.

Definition setup_csv_file : M session bool :=
  try_except
    (do p <- attr output_file;
     do _ <- io (fs_call (mkdir_parents (parent p)));
     do file_exists <- io (gets (fun w => exists_ (fs w) p));
     do _ <- io (fs_call (open_append p));
     do _ <- io (emit (EvOpen p));
     let f := {| h_path := p; h_closed := false |} in
     do _ <- store (set_csv_file (Some f));
     do _ <- store (set_csv_writer (Some fieldnames));
     do _ <- (if negb file_exists
              then do _ <- io (write f header);
                   io (print (MsgCreatedLog p))
              else io (print (MsgAppendingLog p)));
     ret true)
    (fun e =>
       do _ <- io (print (MsgSetupError e));
       ret false).

(** [writerow] and [flush], answered by the world: [w] is what the flush
    raises, if anything, and [d] the time the pair takes.  The row of a
    flush that fails stays in the buffer of the file object. *)
Definition log_position (position_data : position) (w : option exception)
    (d : Q)
    : M session bool :=
  try_except
    (do wr <- attr csv_writer;
     do f <- attr csv_file;
     match wr, f with
     | Some _, Some h =>
         if h_closed h then raise ValueError
         else
           do _ <- io (advance d);
           do _ <- io (write h (row_of position_data));
           do _ <- io (flush h w);
           ret true
     | _, _ => raise AttributeError
     end)
    (fun e =>
       do _ <- io (print (MsgWriteError e));
       ret false).

(** [time.sleep(d)], during which [n] interrupts are delivered: the
    handler runs and the sleep resumes for the rest of its time. *)
Definition time_sleep (d : pyfloat) (n : nat) : M session unit :=
  do _ <- io (emit (EvSleep d));
  match sleep_error d, d with
  | Some e, _ => raise e
  | None, Fin q => do _ <- io (advance q); deliver n
  | None, _ => deliver n
  end.

(** [self.csv_file.close()]: the buffer is written out and the file is
    closed.  When the write fails the exception is raised, the file is
    closed all the same, and what was in the buffer is lost.  Closing a
    file that is closed does nothing. *)
Definition close_file (h : handle) : M session unit :=
  do _ <- io (emit (EvFileClose (h_path h)));
  do _ <- store (set_csv_file (Some {| h_path := h_path h; h_closed := true |}));
  do e <- io (gets (fun w => close_error (host w)));
  if h_closed h then ret tt
  else
    match e with
    | Some e =>
        do _ <- io (modify (with_unflushed []));
        raise e
    | None => io (flush h None)
    end.

(** A call of a driver method in [cleanup]. *)
Definition call_tem (c : tem_call) (r : option exception) : M session unit :=
  do _ <- io (emit (EvTem c));
  match r with
  | Some e => raise e
  | None => ret tt
  end.

Definition cleanup : M session unit :=
  do _ <- io (print MsgCleaningUp);
  do f <- attr csv_file;
  do p <- attr output_file;
  do _ <- match f with
          | Some h =>
              do _ <- close_file h;
              io (print (MsgClosedLog p))
          | None => ret tt
          end;
  do t <- attr tem;
  do _ <- match t with
          | Some d =>
              try_except
                (if has_disconnect d then call_tem Connect (connect_call d)
                 else if has_close d then call_tem Close (close_call d)
                 else ret tt)
                (fun e => io (print (MsgTemCloseError e)))
          | None => ret tt
          end;
  io (print MsgCleanupComplete).

(** The body of the [while] loop: [log_count] in, [log_count] out.  The
    interrupts of the tick are delivered once the flag has been tested,
    when the read has returned, and during the sleep. *)
Definition iteration (t : tick) (log_count : nat) (start_time : Q)
    : M session nat :=
  do _ <- deliver (sigint_before_read t);
  do position_data <- get_stage_position (reading t) (read_time t);
  do _ <- deliver (sigint_in_read t);
  do log_count <-
    match position_data with
    | Some d =>
        do ok <- log_position d (write_error t) (write_time t);
        if ok then
          let log_count := S log_count in
          do _ <- (if (log_count mod 10 =? 0)%nat
                   then
                     do now <- io time_time;
                     let elapsed := (now - start_time)%Q in
                     let rate :=
                       if negb (Qle_bool elapsed 0)
                       then (inject_Z (Z.of_nat log_count) / elapsed)%Q
                       else 0%Q in
                     io (print (MsgLogged log_count rate))
                   else ret tt);
          ret log_count
        else ret log_count
    | None => ret log_count
    end;
  do i <- attr interval;
  do _ <- time_sleep i (sigint_in_sleep t);
  ret log_count.

(** [while self.running: ...], one [tick] per iteration.  When the flag
    is still set and the world's script has no tick left, the loop is
    still running. *)
Fixpoint loop (ts : list tick) (log_count : nat) (start_time : Q)
    : M session nat :=
  do r <- attr running;
  if r then
    match ts with
    | [] => exhausted
    | t :: ts' =>
        do n <- iteration t log_count start_time;
        loop ts' n start_time
    end
  else ret log_count.

Definition run (sc : script) : M session bool :=
  do p <- attr output_file;
  do i <- attr interval;
  do _ <- io (print (MsgStarting p i));
  do _ <- deliver (early_sigint sc);
  do ok <- initialize_tem;
  if negb ok then
    do _ <- io (print MsgInitFailed);
    ret false
  else
    do ok <- setup_csv_file;
    if negb ok then
      do _ <- io (print MsgSetupFailed);
      ret false
    else
      do start_time <- io time_time;
      do _ <- try_finally
                (try_except
                   (do _ <- loop (ticks sc) 0 start_time; ret tt)
                   (fun e => io (print (MsgUnexpected e))))
                cleanup;
      ret true.

(** The exit status of the process, from the outcome of [main]: a
    [SystemExit] carries it, any other uncaught exception makes it 1. *)
Definition exit_status {A : Type} (r : outcome A) : option Z :=
  match r with
  | Ret _ => Some 0%Z
  | Raise (SystemExit code) => Some code
  | Raise (Exception _) => Some 1%Z
  | Exhausted => None
  end.

(** [c] run as a method of the object [l]. *)
Definition method {A : Type} (l : logger) (c : M session A) : M world A :=
  fun w =>
    let (r, s) := c {| self := l; env := w |} in
    (r, env s).

(** ** beam_blank.py: [BeamControllerApp] *)

(** [is_blank] holds what [GetBeamBlank()] returned, an integer, until
    the first toggle stores a boolean. *)
Inductive pyvalue : Type :=
  | PyBool (b : bool)
  | PyInt (n : Z).

Definition truthy (v : pyvalue) : bool :=
  match v with
  | PyBool b => b
  | PyInt n => negb (n =? 0)%Z
  end.

(** [v == True]. *)
Definition eq_True (v : pyvalue) : bool :=
  match v with
  | PyBool b => b
  | PyInt n => (n =? 1)%Z
  end.

Record button : Type := {
  text : string;
  bg : string;
}.

(** The application object, together with the values [SetBeamBlank] has
    been called with, oldest first. *)
Record BeamControllerApp : Type := {
  is_blank : pyvalue;
  btn : button;
  current_hotkey : string;
  SetBeamBlank_calls : list Z;
}.

Definition unblank_button : button :=
  {| text := "Unblank Beam"; bg := "#65A8E1" |}.

Definition blank_button : button :=
  {| text := "Blank Beam"; bg := "#32CD32" |}.

(** The constructor, given the answer of [GetBeamBlank()]. *)
Definition BeamControllerApp_init (GetBeamBlank : pyvalue) : BeamControllerApp :=
  {| is_blank := GetBeamBlank;
     btn := if eq_True GetBeamBlank then unblank_button else blank_button;
     current_hotkey := "alt+q";
     SetBeamBlank_calls := [] |}.

Definition toggle_beam (app : BeamControllerApp) : BeamControllerApp :=
  if truthy (is_blank app) then
    {| is_blank := PyBool false;
       btn := unblank_button;
       current_hotkey := current_hotkey app;
       SetBeamBlank_calls := SetBeamBlank_calls app ++ [1%Z] |}
  else
    {| is_blank := PyBool true;
       btn := blank_button;
       current_hotkey := current_hotkey app;
       SetBeamBlank_calls := SetBeamBlank_calls app ++ [0%Z] |}.

(** The values sent by [n] toggles in a row. *)
Fixpoint alternate (b : bool) (n : nat) : list Z :=
  match n with
  | O => []
  | S n' => (if b then 1%Z else 0%Z) :: alternate (negb b) n'
  end.

(** *** The hotkey *)

(** The window around the application object: the text of the hotkey
    entry, and the hotkeys registered with the [keyboard] module, oldest
    first.  Every one of them is bound to [toggle_beam]. *)
Record window : Type := {
  controller : BeamControllerApp;
  hotkey_entry : string;
  hotkeys : list string;
}.

Definition with_hotkeys (l : list string) (g : window) : window :=
  {| controller := controller g; hotkey_entry := hotkey_entry g; hotkeys := l |}.

Definition set_current_hotkey (k : string) (g : window) : window :=
  {| controller :=
       {| is_blank := is_blank (controller g);
          btn := btn (controller g);
          current_hotkey := k;
          SetBeamBlank_calls := SetBeamBlank_calls (controller g) |};
     hotkey_entry := hotkey_entry g;
     hotkeys := hotkeys g |}.

(** The operator types [s] over the text of the entry. *)
Definition type_hotkey (s : string) (g : window) : window :=
  {| controller := controller g; hotkey_entry := s; hotkeys := hotkeys g |}.

Section Keyboard.

(** Whether [keyboard] knows every key of a hotkey name; [add_hotkey]
    raises [ValueError] on a name it cannot parse. *)
Variable parses : string -> bool.

(** [str.strip()]. *)
Variable strip : string -> string.

Definition add_hotkey (name : string) : M window unit :=
  if parses name
  then modify (fun g => with_hotkeys (hotkeys g ++ [name]) g)
  else raise ValueError.

Definition clear_all_hotkeys : M window unit := modify (with_hotkeys []).

(** The listener thread: [keyboard.wait()] never returns. *)
Definition hotkey_listener : M window unit :=
  do k <- gets (fun g => current_hotkey (controller g));
  do _ <- add_hotkey k;
  exhausted.

Definition update_hotkey : M window unit :=
  do e <- gets hotkey_entry;
  let new_hotkey := strip e in
  if (new_hotkey =? "")%string then ret tt
  else
    do _ <- clear_all_hotkeys;
    do _ <- modify (set_current_hotkey new_hotkey);
    add_hotkey new_hotkey.

(** The window once the constructor has run and the listener thread has
    registered the first hotkey. *)
Definition started (GetBeamBlank : pyvalue) : window :=
  (hotkey_listener
     {| controller := BeamControllerApp_init GetBeamBlank;
        hotkey_entry := "alt+q";
        hotkeys := [] |}).2.

(** The operator types each of [entries] in turn and presses
    [Set Hotkey] after each; an exception of the callback is reported by
    Tk and the window stays open. *)
Definition set_hotkeys (entries : list string) (g : window) : window :=
  foldl (fun g e => (update_hotkey (type_hotkey e g)).2) g entries.

(** The names an operator's entries stand for: blanks around a name
    are dropped, and an entry of blanks only is no name. *)
Definition hotkey_names (entries : list string) : list string :=
  List.filter (fun k => negb (k =? "")%string) (strip <$> entries).

End Keyboard.


(** ** stage_logger.py: the configurator and [main] *)

Section Scripts.

(** [float(s)] on a string: [None] is a [ValueError]. *)
Variable float : string -> option pyfloat.

(** [pathlib.Path(s)]. *)
Variable Path : string -> path.

(** [str.strip()] and [str.lower()]. *)
Variable strip : string -> string.
Variable lower : string -> string.

Definition default_output : string :=
  "C:\jeol_dnr\SynergyED_stage_pos_log.csv".

Definition default_interval : pyfloat := Fin (1 # 10).

(** The constructor: the attributes, and the handler installed for
    [SIGINT]. *)
Definition __init__ (out : string) (ival : pyfloat) : M world logger :=
  do _ <- emit (EvSetRunning true);
  ret {| output_file := Path out; interval := ival; running := true;
         tem := None; csv_writer := None; csv_file := None |}.

(** The settings shown at the top of every round of the menu, with the
    probe of the output directory.  [Path.exists()] is answered from the
    file system of the model, in which the [stat] behind it fails for no
    other reason than a path that is not there. *)
Definition show_configuration (out : string) (ival : pyfloat) : M world unit :=
  do _ <- print MsgCurrentConfiguration;
  do _ <- print (MsgOutputFile out);
  do _ <- print (MsgOutputDirectory (parent (Path out)));
  do hz <- of_sum (float_inv ival);
  do _ <- print (MsgLoggingInterval ival hz);
  do e <- gets (fun w => exists_ (fs w) (Path out));
  do _ <- print (MsgFileWillBe e);
  do _ <- try_except
            (do _ <- fs_call (mkdir_parents (parent (Path out)));
             let test_file := parent (Path out) ++ ["test_write.tmp"] in
             do _ <- fs_call (touch test_file);
             do _ <- fs_call (unlink test_file);
             print MsgWritable)
            (fun e => print (MsgDirectoryError e));
  print MsgOptions.

(** The [while True] menu of [get_user_parameters].  [answers] is the
    operator's pending input; each [input()] takes its first line and
    leaves the rest on [stdin]. *)
Fixpoint menu (answers : list string) (out : string) (ival : pyfloat)
    : M world (option (string * pyfloat)) :=
  do _ <- show_configuration out ival;
  match answers with
  | [] => raise EOFError
  | line :: rest =>
      do _ <- modify (with_stdin rest);
      let choice := strip line in
      if (choice =? "1")%string then ret (Some (out, ival))
      else if (choice =? "2")%string then
        match rest with
        | [] => raise EOFError
        | line' :: rest' =>
            do _ <- modify (with_stdin rest');
            let new_output := strip line' in
            let out' :=
              if (new_output =? "")%string then out else new_output in
            do _ <- print MsgSeparator;
            menu rest' out' ival
        end
      else if (choice =? "3")%string then
        match rest with
        | [] => raise EOFError
        | line' :: rest' =>
            do _ <- modify (with_stdin rest');
            do ival' <-
              match float (strip line') with
              | Some new_interval =>
                  if float_gt0 new_interval then ret new_interval
                  else do _ <- print MsgMustBePositive; ret ival
              | None => do _ <- print MsgInvalidNumber; ret ival
              end;
            do _ <- print MsgSeparator;
            menu rest' out ival'
        end
      else if (choice =? "4")%string then
        do _ <- print MsgExiting;
        ret None
      else
        do _ <- print MsgInvalidChoice;
        do _ <- print MsgSeparator;
        menu rest out ival
  end.

(** [get_user_parameters], given [sys.argv].  [None] stands for the pair
    [(None, None)]. *)
Definition get_user_parameters (argv : list string)
    : M world (option (string * pyfloat)) :=
  do _ <- print MsgConfigTitle;
  let out :=
    match argv !! 1%nat with
    | Some a => a
    | None => default_output
    end in
  do ival <-
    match argv !! 2%nat with
    | Some a =>
        match float a with
        | Some v => ret v
        | None =>
            do _ <- print (MsgInvalidInterval a default_interval);
            ret default_interval
        end
    | None => ret default_interval
    end;
  do answers <- gets stdin;
  menu answers out ival.

Fixpoint confirm (answers : list string) : M world bool :=
  match answers with
  | [] => raise EOFError
  | line :: rest =>
      do _ <- modify (with_stdin rest);
      let response := strip (lower line) in
      if (response =? "y")%string || (response =? "yes")%string then ret true
      else if (response =? "n")%string || (response =? "no")%string
      then ret false
      else do _ <- print MsgPleaseYN; confirm rest
  end.

Definition confirm_operation : M world bool :=
  do _ <- print MsgInstructions;
  do answers <- gets stdin;
  confirm answers.

Definition sys_exit {A : Type} (code : Z) : M world A :=
  raise (SystemExit code).

Definition main (argv : list string) (sc : script) : M world unit :=
  do _ <- print MsgTitle;
  do r <- get_user_parameters argv;
  match r with
  | None => sys_exit 0
  | Some (out, ival) =>
      do ok <- confirm_operation;
      if negb ok then
        do _ <- print MsgAborted;
        sys_exit 0
      else
        do _ <- print MsgStartingLogger;
        do l <- __init__ out ival;
        do success <- method l (run sc);
        if success then print MsgCompleted
        else
          do _ <- print MsgFailed;
          sys_exit 1
  end.

End Scripts.

(** ** Vocabulary of the properties *)

(** The operations on the log file. *)
Definition is_sink_event (e : event) : bool :=
  match e with
  | EvOpen _ | EvWrite _ _ | EvFileClose _ => true
  | _ => false
  end.

(** The values stored to [running], in the order of the stores. *)
Definition flag_of (e : event) : option bool :=
  match e with
  | EvSetRunning b => Some b
  | _ => None
  end.

Definition flag_history (t : list event) : list bool := omap flag_of t.

(** The number of places where a history goes from [true] to [false],
    and from [false] to [true]. *)
Fixpoint falls (h : list bool) : nat :=
  match h with
  | [] => 0
  | b :: h' =>
      (match b, h' with
       | true, false :: _ => 1
       | _, _ => 0
       end + falls h')%nat
  end.

Fixpoint rises (h : list bool) : nat :=
  match h with
  | [] => 0
  | b :: h' =>
      (match b, h' with
       | false, true :: _ => 1
       | _, _ => 0
       end + rises h')%nat
  end.

(** A stage read that yields no sample: the call raises, or the tuple is
    too short for the five fields. *)
Definition read_fails (r : read_result) : bool :=
  match r with
  | ReadRaises => true
  | ReadOk stage_data => (length stage_data <? 5)%nat
  end.

(** The state in which [run] enters its loop: the driver bound, the log
    file open behind its writer. *)
Definition ready (s : session) : Prop :=
  tem (self s) <> None /\
  csv_writer (self s) <> None /\
  csv_file (self s) =
    Some {| h_path := output_file (self s); h_closed := false |}.

(** The events a computation added to the trace. *)
Definition new_events (before after : world) : list event :=
  drop (length (trace before)) (trace after).


(** What the script did, the printed lines left out. *)
Definition is_print (e : event) : bool :=
  match e with
  | EvPrint _ => true
  | _ => false
  end.

Definition actions (t : list event) : list event :=
  List.filter (fun e => negb (is_print e)) t.

(** The driver methods called, in order. *)
Definition tem_calls (t : list event) : list tem_call :=
  omap (fun e => match e with EvTem c => Some c | _ => None end) t.

(** What [n] deliveries of the interrupt add to the trace. *)
Fixpoint signal_events (n : nat) : list event :=
  match n with
  | O => []
  | S n' =>
      EvPrint (MsgReceivedSignal SIGINT) :: EvSetRunning false
        :: signal_events n'
  end.

(** Two states between which only time has passed: they differ in the
    [running] flag, the trace and the clock at most. *)
Definition undisturbed (s s' : session) : Prop :=
  set_running true (self s') = set_running true (self s) /\
  with_clock 0 (with_trace [] (env s')) = with_clock 0 (with_trace [] (env s)).

(** The events a logger produces once it is constructed: any but a store
    of [True] to [running] and a call of the driver's [disconnect]. *)
Definition logger_event (e : event) : bool :=
  match e with
  | EvSetRunning true | EvTem Disconnect => false
  | _ => true
  end.

(** The arguments of the calls of [time.sleep], and the timestamps of
    the rows written, in order. *)
Definition sleeps (t : list event) : list pyfloat :=
  omap (fun e => match e with EvSleep d => Some d | _ => None end) t.

Definition written_times (t : list event) : list Q :=
  omap (fun e => match e with
                 | EvWrite _ (CTime now :: _) => Some now
                 | _ => None
                 end) t.




(** The events of the code around the logger: no store to [running] and
    no call of [disconnect]. *)
Definition quiet_event (e : event) : bool :=
  match e with
  | EvSetRunning _ | EvTem Disconnect => false
  | _ => true
  end.

(** The value of [running] after the stores among [evs], from [b]. *)
Definition flag_after (b : bool) (evs : list event) : bool :=
  default b (last (flag_history evs)).

(** A computation on the world whose events all satisfy [P]. *)
Definition emits (P : event -> bool) {A : Type} (c : M world A) : Prop :=
  forall w, exists evs,
    trace (c w).2 = trace w ++ evs /\
    Forall (fun e => P e = true) evs.

(** A method that only adds events of a logger to the trace, and leaves
    in [running] the value the last of its stores put there. *)
Definition orderly {A : Type} (c : M session A) : Prop :=
  forall s, exists evs,
    trace (env (c s).2) = trace (env s) ++ evs /\
    Forall (fun e => logger_event e = true) evs /\
    running (self (c s).2) = flag_after (running (self s)) evs.

(** The stores to [running] of one session at most: [True] by the
    constructor, then [False] by the handler, any number of times. *)
Definition one_session (h : list bool) : Prop :=
  h = [] \/ exists k, h = true :: replicate k false.

(** A computation on the world that adds the events of one session at
    most. *)
Definition in_one_session {A : Type} (c : M world A) : Prop :=
  forall w, exists evs,
    trace (c w).2 = trace w ++ evs /\
    one_session (flag_history evs).

(** What [confirm_operation] makes of a line of input. *)
Definition yes_no (strip lower : string -> string) (line : string)
    : option bool :=
  let response := strip (lower line) in
  if (response =? "y")%string || (response =? "yes")%string then Some true
  else if (response =? "n")%string || (response =? "no")%string then Some false
  else None.

(** How a call of the configurator may end when the interval it starts
    from is positive: with settings whose interval is positive, with the
    operator's choice to leave, or at the end of the input. *)
Definition positive_or_eof (r : outcome (option (string * pyfloat))) : Prop :=
  match r with
  | Ret (Some (_, ival)) => float_gt0 ival = true
  | Ret None => True
  | Raise e => e = Exception EOFError
  | Exhausted => False
  end.

(** What a caller of the configurator may rely on when the interval it
    starts from is positive: the call ends; the interval of the settings
    it returns, when it returns settings, is positive; and what it
    raises, when it raises, is not the [ZeroDivisionError] of the
    display. *)
Definition returns_positive (r : outcome (option (string * pyfloat))) : Prop :=
  match r with
  | Ret (Some (_, ival)) => float_gt0 ival = true
  | Ret None => True
  | Raise e => e <> Exception ZeroDivisionError
  | Exhausted => False
  end.

(** The dictionary [get_stage_position] builds at time [now] from what
    the stage answered, when there is one. *)
Definition sample_of (now : Q) (r : read_result) : option position :=
  match r with
  | ReadOk (x :: y :: z :: a :: b :: _) =>
      Some {| timestamp := now; x_position := x; y_position := y;
              z_position := z; alpha_tilt := a; beta_tilt := b |}
  | _ => None
  end.


(** A tick whose sample is read and written. *)
Definition accepted (t : tick) : Prop :=
  read_fails (reading t) = false /\ write_error t = None.


(** What keeps a log at [p] from being opened, if anything: a file in
    the way of its directory, or what [open(p, 'a')] raises. *)
Definition cannot_open (f : filesystem) (p : path) : option exception :=
  match mkdir_parents (parent p) f with
  | inl e => Some e
  | inr f1 =>
      match open_append p f1 with
      | inl e => Some e
      | inr _ => None
      end
  end.

(** ** The actions of a logger *)

Definition emitted (e : event) (s : session) : session :=
  {| self := self s; env := with_trace (trace (env s) ++ [e]) (env s) |}.

Definition on_env (f : world -> world) (s : session) : session :=
  {| self := self s; env := f (env s) |}.

(** One action of a [StagePositionLogger] on itself and the world: a
    line printed, the interrupt handler run, the driver bound, a stage
    read started, time passing in a call, the directories of the log
    made, the log opened, the writer built, a row handed to the writer of
    the open handle, the buffer of the file written out, the buffer lost
    in a [close()] that fails, a sleep of the configured interval
    started, the log closed, the driver method of [cleanup] called. *)
Inductive step : session -> session -> Prop :=
  | step_print s m :
      step s (emitted (EvPrint m) s)
  | step_interrupt s :
      step s
        {| self := set_running false (self s);
           env := with_trace
                    (trace (env s) ++
                       [EvPrint (MsgReceivedSignal SIGINT); EvSetRunning false])
                    (env s) |}
  | step_bind_driver s :
      step s (with_self (set_tem (Some (TEM3 (host (env s)))) (self s)) s)
  | step_read s :
      tem (self s) <> None ->
      step s (emitted (EvTem GetPos) s)
  | step_wait s d :
      step s (on_env (fun w => with_clock (clock w + d)%Q w) s)
  | step_mkdir s f' :
      mkdir_parents (parent (output_file (self s))) (fs (env s)) = inr f' ->
      step s (on_env (with_fs f') s)
  | step_open s f' :
      open_append (output_file (self s)) (fs (env s)) = inr f' ->
      step s
        {| self := set_csv_file
                     (Some {| h_path := output_file (self s);
                              h_closed := false |}) (self s);
           env := with_trace (trace (env s) ++ [EvOpen (output_file (self s))])
                    (with_fs f' (env s)) |}
  | step_writer s :
      step s (with_self (set_csv_writer (Some fieldnames) (self s)) s)
  | step_write s h r :
      csv_file (self s) = Some h ->
      h_closed h = false ->
      step s
        (on_env (fun w => with_unflushed (unflushed w ++ [r]) w)
           (emitted (EvWrite (h_path h) r) s))
  | step_flush s h :
      csv_file (self s) = Some h ->
      step s
        (on_env (fun w =>
           with_unflushed []
             (with_fs (append_rows (h_path h) (unflushed w) (fs w)) w)) s)
  | step_drop s :
      close_error (host (env s)) <> None ->
      step s (on_env (with_unflushed []) s)
  | step_sleep s :
      step s (emitted (EvSleep (interval (self s))) s)
  | step_close s h :
      csv_file (self s) = Some h ->
      step s
        {| self := set_csv_file
                     (Some {| h_path := h_path h; h_closed := true |}) (self s);
           env := with_trace (trace (env s) ++ [EvFileClose (h_path h)])
                    (env s) |}
  | step_teardown s d :
      tem (self s) = Some d ->
      has_disconnect d || has_close d = true ->
      step s
        (emitted (EvTem (if has_disconnect d then Connect else Close)) s).

(** ** Specifications of computations *)

Definition hoare {S A : Type} (P : S -> Prop) (c : M S A)
    (Q : outcome A -> S -> Prop) : Prop :=
  forall s, P s -> Q (c s).1 (c s).2.

Definition raises_only {A : Type} (E : exn -> Prop) (r : outcome A) : Prop :=
  match r with
  | Raise e => E e
  | _ => True
  end.

(** The state is reached from [s0] by actions of the logger, and an
    exception that leaves the computation satisfies [E]. *)
Definition reaches (s0 : session) (E : exn -> Prop) {A : Type}
    (r : outcome A) (s : session) : Prop :=
  rtc step s0 s /\ raises_only E r.

Definition is_exception (e : exn) : Prop := exists x, e = Exception x.

(** The exception of a failed [close()] of the log file. *)
Definition is_close_error (h : platform) (e : exn) : Prop :=
  exists x, e = Exception x /\ close_error h = Some x.


(** The stage reads among events. *)
Definition is_read (e : event) : bool :=
  match e with
  | EvTem GetPos => true
  | _ => false
  end.

Definition not_read (e : event) : bool := negb (is_read e).

Definition reads (evs : list event) : nat := length (List.filter is_read evs).

(** A method that adds events to the trace, [k] stage reads at most
    among them. *)
Definition reads_at_most (k : nat) {A : Type} (c : M session A) : Prop :=
  forall s, exists evs,
    trace (env (c s).2) = trace (env s) ++ evs /\ (reads evs <= k)%nat.

(** Events in which every store of [False] to [running] is followed by
    one stage read at most. *)
Definition stops_promptly (evs : list event) : Prop :=
  forall a c, evs = a ++ EvSetRunning false :: c -> (reads c <= 1)%nat.

(** An orderly method that heeds the flag: it starts no stage read when
    it finds the flag down, and one at most once the flag has dropped. *)
Definition heeds_flag {A : Type} (c : M session A) : Prop :=
  forall s, exists evs,
    trace (env (c s).2) = trace (env s) ++ evs /\
    Forall (fun e => logger_event e = true) evs /\
    running (self (c s).2) = flag_after (running (self s)) evs /\
    (running (self s) = false -> reads evs = 0%nat) /\
    stops_promptly evs.

(** ** Scenarios *)

(** A driver module that has a [disconnect] attribute, and a laboratory
    in which nothing fails. *)
Definition TEM3_full : driver :=
  {| has_disconnect := true; has_close := true; connect_call := None;
     close_call := None |}.

Definition lab : platform :=
  {| TEM3 := TEM3_full; tem_binding := None; close_error := None |}.

(** A laboratory in which the driver cannot be bound, and one in which
    closing the log file fails. *)
Definition lab_unreachable : platform :=
  {| TEM3 := TEM3_full; tem_binding := Some DriverError;
     close_error := None |}.

Definition lab_disk_full : platform :=
  {| TEM3 := TEM3_full; tem_binding := None; close_error := Some OSError |}.

(** An empty file system, the operator's lines on [stdin]. *)
Definition world0 (h : platform) (keys : list string) : world :=
  {| host := h; fs := ∅; trace := []; stdin := keys; clock := 0;
     unflushed := [] |}.

(** An iteration with a full stage tuple, read in 50 ms, during whose
    sleep [n] interrupts arrive; [w] is the outcome of the write. *)
Definition good_tick (w : option exception) (n : nat) : tick :=
  {| reading := ReadOk [1; 2; 3; 4; 5]%Q; read_time := 1 # 20;
     write_error := w; write_time := 0; sigint_before_read := 0;
     sigint_in_read := 0; sigint_in_sleep := n |}.

(** An iteration whose stage read yields [r]. *)
Definition read_tick (r : read_result) : tick :=
  {| reading := r; read_time := 1 # 20; write_error := None;
     write_time := 0; sigint_before_read := 0; sigint_in_read := 0;
     sigint_in_sleep := 0 |}.

(** A logger as [main] constructs it. *)
Definition new_logger (p : path) (i : pyfloat) : logger :=
  {| output_file := p; interval := i; running := true; tem := None;
     csv_writer := None; csv_file := None |}.

(** A logger inside its loop, writing to [p]. *)
Definition logging (p : path) (i : pyfloat) (w : world) : session :=
  {| self :=
       {| output_file := p; interval := i; running := true;
          tem := Some TEM3_full; csv_writer := Some fieldnames;
          csv_file := Some {| h_path := p; h_closed := false |} |};
     env := w |}.

(** * Properties *)

(** ** The monad *)

Lemma bind_ret_eq {S A B : Type} (c : M S A) (k : A -> M S B) s a s' :
  c s = (Ret a, s') -> bind c k s = k a s'.
Proof. unfold bind. intros ->. reflexivity. Qed.

Lemma bind_raise_eq {S A B : Type} (c : M S A) (k : A -> M S B) s e s' :
  c s = (Raise e, s') -> bind c k s = (Raise e, s').
Proof. unfold bind. intros ->. reflexivity. Qed.

Lemma bind_exhausted_eq {S A B : Type} (c : M S A) (k : A -> M S B) s s' :
  c s = (Exhausted, s') -> bind c k s = (Exhausted, s').
Proof. unfold bind. intros ->. reflexivity. Qed.

(** ** beam_blank.py *)

(** C10.  Every call of [toggle_beam] stores in [is_blank] the negation
    of its truth value before the call, so that two calls restore it, and
    calls [SetBeamBlank] with 1 exactly when [is_blank] was true before
    the call and with 0 otherwise: the value sent to the hardware is the
    state believed current before the toggle, not its negation. *)
Theorem toggle_beam_negates_and_commands_prior (app : BeamControllerApp) :
  is_blank (toggle_beam app) = PyBool (negb (truthy (is_blank app))) /\
  truthy (is_blank (toggle_beam (toggle_beam app))) = truthy (is_blank app) /\
  SetBeamBlank_calls (toggle_beam app) =
    SetBeamBlank_calls app ++ [if truthy (is_blank app) then 1%Z else 0%Z].
Proof.
  unfold toggle_beam.
  destruct (truthy (is_blank app)) eqn:E; cbn; rewrite ?E; auto.
Qed.

(** ** The configurator *)

Section Configurator.

Variable float : string -> option pyfloat.
Variable Path : string -> path.
Variable strip : string -> string.

(** The display of the settings raises on a zero interval, before the
    operator is asked anything. *)
Lemma show_configuration_zero (out : string) (q : Q) (w : world) :
  (q == 0)%Q ->
  exists w', show_configuration Path out (Fin q) w = (Raise ZeroDivisionError, w') /\
             stdin w' = stdin w /\ fs w' = fs w.
Proof.
  intros Hq. apply Qeq_bool_iff in Hq.
  unfold show_configuration, bind, print, emit, modify, of_sum, float_inv.
  cbn. rewrite Hq. cbn. eauto.
Qed.

Lemma menu_zero (answers : list string) (out : string) (q : Q) (w : world) :
  (q == 0)%Q ->
  exists w', menu float Path strip answers out (Fin q) w = (Raise ZeroDivisionError, w') /\
             stdin w' = stdin w /\ fs w' = fs w.
Proof.
  intros Hq.
  destruct (show_configuration_zero out q w Hq) as (w' & H1 & H2 & H3).
  exists w'. split; [|auto].
  destruct answers; cbn [menu]; apply bind_raise_eq, H1.
Qed.

(** C8.  The display of the configuration computes [1/interval] without
    a guard: when the interval argument of the command line parses to
    zero, [get_user_parameters] raises [ZeroDivisionError], uncaught,
    instead of rejecting the value or falling back to the default, and
    before any input is read. *)
Theorem zero_interval_argument_raises
    (argv : list string) (a : string) (q : Q) (w : world) :
  argv !! 2%nat = Some a ->
  float a = Some (Fin q) ->
  (q == 0)%Q ->
  let r := get_user_parameters float Path strip argv w in
  r.1 = Raise ZeroDivisionError /\ stdin r.2 = stdin w /\ fs r.2 = fs w.
Proof.
  intros Ha Hf Hq.
  unfold get_user_parameters. rewrite Ha, Hf.
  erewrite bind_ret_eq by reflexivity.
  erewrite bind_ret_eq by reflexivity.
  erewrite bind_ret_eq by reflexivity.
  cbn [stdin with_trace fs].
  match goal with
  | |- context [menu float Path strip ?i ?o (Fin q) ?v] =>
      destruct (menu_zero i o q v Hq) as (w' & H1 & H2 & H3)
  end.
  rewrite H1. auto.
Qed.

End Configurator.

Lemma zero_interval_argument_raises_witness :
  let argv := ["stage_logger.py"; "out.csv"; "0"] in
  let r := get_user_parameters float_literal path_of_string str_strip argv
             (world0 lab ["1"; "y"]) in
  float_literal "0" = Some (Fin 0) /\ r.1 = Raise ZeroDivisionError.
Proof.
  split; [reflexivity|].
  apply (zero_interval_argument_raises float_literal path_of_string str_strip
           ["stage_logger.py"; "out.csv"; "0"] "0" 0 (world0 lab ["1"; "y"]));
    reflexivity.
Defined.

(** C4, at the input on which the code departs from it.  The interval
    argument [-1] parses, so nothing rejects it: the operator who starts
    with the settings shown gets the interval -1 back, not the default. *)
Theorem negative_interval_argument_accepted :
  let argv := ["stage_logger.py"; "out.csv"; "-1"] in
  let r := get_user_parameters float_literal path_of_string str_strip argv
             (world0 lab ["1"]) in
  r.1 = Ret (Some ("out.csv", Fin (-1))) /\
  float_gt0 (Fin (-1)) = false /\
  Forall (fun e => e <> EvPrint (MsgInvalidInterval "-1" default_interval))
    (trace r.2).
Proof.
  vm_compute. split; [reflexivity|]. split; [reflexivity|].
  repeat constructor; discriminate.
Qed.

(** ** The file system *)

Lemma mkdir_from_keeps (done todo : path) (f f' : filesystem) :
  mkdir_from done todo f = inr f' ->
  forall q n, f !! q = Some n -> f' !! q = Some n.
Proof.
  revert done f. induction todo as [|c todo IH]; intros done f H q n Hq; cbn in H.
  - congruence.
  - destruct (f !! (done ++ [c])) as [[|rows]|] eqn:E; try discriminate.
    + eauto.
    + eapply IH; [exact H|]. rewrite lookup_insert_ne; [assumption|congruence].
Qed.







(** ** The record sink *)

Lemma io_fs_call_ok (op : filesystem -> exception + filesystem) (s : session)
    (f' : filesystem) :
  op (fs (env s)) = inr f' ->
  io (fs_call op) s = (Ret tt, {| self := self s; env := with_fs f' (env s) |}).
Proof.
  intros H. unfold io, fs_call, bind, gets, of_sum, modify. rewrite H. reflexivity.
Qed.

Lemma io_fs_call_err (op : filesystem -> exception + filesystem)
    (s : session) (e : exception) :
  op (fs (env s)) = inl e ->
  io (fs_call op) s = (Raise e, {| self := self s; env := env s |}).
Proof.
  intros H. unfold io, fs_call, bind, gets, of_sum, modify. rewrite H. reflexivity.
Qed.





(** ** Interrupts *)

Lemma undisturbed_refl (s : session) : undisturbed s s.
Proof. split; reflexivity. Qed.

Lemma undisturbed_trans (s1 s2 s3 : session) :
  undisturbed s1 s2 -> undisturbed s2 s3 ->
  undisturbed s1 s3.
Proof. intros [H1 H2] [H3 H4]. split; congruence. Qed.

Lemma undisturbed_fields (s s' : session) :
  undisturbed s s' ->
  output_file (self s') = output_file (self s) /\
  interval (self s') = interval (self s) /\
  tem (self s') = tem (self s) /\
  csv_writer (self s') = csv_writer (self s) /\
  csv_file (self s') = csv_file (self s) /\
  host (env s') = host (env s) /\
  fs (env s') = fs (env s) /\
  stdin (env s') = stdin (env s) /\
  unflushed (env s') = unflushed (env s).
Proof.
  intros [H1 H2].
  repeat split;
    first [ exact (f_equal output_file H1) | exact (f_equal interval H1)
          | exact (f_equal tem H1) | exact (f_equal csv_writer H1)
          | exact (f_equal csv_file H1) | exact (f_equal host H2)
          | exact (f_equal fs H2) | exact (f_equal stdin H2)
          | exact (f_equal unflushed H2) ].
Qed.

Lemma signal_handler_eq (signum : Z) (s : session) :
  signal_handler signum s =
    (Ret tt,
     {| self := set_running false (self s);
        env := with_trace
                 (trace (env s) ++
                    [EvPrint (MsgReceivedSignal signum); EvSetRunning false])
                 (env s) |}).
Proof.
  unfold signal_handler, bind, io, print, emit, modify, store. cbn.
  unfold with_self, with_trace. cbn. rewrite <- app_assoc. reflexivity.
Qed.

Lemma deliver_spec (n : nat) (s : session) :
  exists s',
    deliver n s = (Ret tt, s') /\
    undisturbed s s' /\
    trace (env s') = trace (env s) ++ signal_events n /\
    running (self s') = match n with O => running (self s) | S _ => false end /\
    clock (env s') = clock (env s).
Proof.
  revert s. induction n as [|n IH]; intros s.
  - exists s. cbn. rewrite app_nil_r. repeat split.
  - cbn [deliver].
    destruct (IH {| self := set_running false (self s);
                    env := with_trace
                             (trace (env s) ++
                                [EvPrint (MsgReceivedSignal SIGINT);
                                 EvSetRunning false]) (env s) |})
      as (s' & Hd & Hs & Ht & Hr & Hc).
    exists s'. split; [|split; [|split; [|split]]].
    + erewrite bind_ret_eq by apply signal_handler_eq. exact Hd.
    + eapply undisturbed_trans; [|exact Hs]. split; reflexivity.
    + rewrite Ht. cbn. rewrite <- app_assoc. reflexivity.
    + rewrite Hr. destruct n; reflexivity.
    + exact Hc.
Qed.

(** ** Connecting *)

Lemma initialize_tem_fails (s : session) (e : exception) :
  tem_binding (host (env s)) = Some e ->
  initialize_tem s =
    (Ret false,
     {| self := self s;
        env := with_trace (trace (env s) ++ [EvPrint (MsgConnectFailed e)])
                 (env s) |}).
Proof.
  intros Hb. unfold initialize_tem, try_except.
  erewrite bind_ret_eq by reflexivity. cbn beta. cbn [env].
  rewrite Hb. erewrite bind_raise_eq by reflexivity.
  reflexivity.
Qed.

Lemma signal_events_not_sink (n : nat) :
  Forall (fun ev => is_sink_event ev = false) (signal_events n).
Proof. induction n; cbn; repeat constructor; assumption. Qed.

(** C9.  When binding the driver fails, [run] returns [False] before the
    record sink is touched: the file system is as it was, the logger has
    no file and no writer that it did not have, and no operation on the
    log file (open, write, close) is among the events of the run. *)
Theorem connection_failure_leaves_sink_untouched
    (sc : script) (s : session) (e : exception) :
  tem_binding (host (env s)) = Some e ->
  exists s',
    run sc s = (Ret false, s') /\
    fs (env s') = fs (env s) /\
    csv_file (self s') = csv_file (self s) /\
    csv_writer (self s') = csv_writer (self s) /\
    Forall (fun ev => is_sink_event ev = false) (new_events (env s) (env s')).
Proof.
  intros Hb. unfold run.
  do 3 (erewrite bind_ret_eq by reflexivity; cbn beta).
  match goal with
  | |- context [bind (deliver ?n) _ ?s0] =>
      destruct (deliver_spec n s0) as (s1 & Hd & Hs & Ht & _)
  end.
  erewrite bind_ret_eq by exact Hd. cbn beta.
  apply undisturbed_fields in Hs.
  destruct Hs as (_ & _ & _ & Hw & Hf & Hh & Hfs & _).
  cbn in Hw, Hf, Hh, Hfs, Ht.
  erewrite bind_ret_eq
    by (apply initialize_tem_fails; rewrite Hh; exact Hb).
  cbn beta iota. cbn [negb].
  erewrite bind_ret_eq by reflexivity. cbn beta.
  eexists. split; [reflexivity|]. cbn.
  repeat split; try assumption.
  unfold new_events. cbn. rewrite Ht, <- !app_assoc, drop_app_length.
  apply Forall_app. split; [repeat constructor|].
  apply Forall_app. split; [apply signal_events_not_sink|repeat constructor].
Qed.

Lemma connection_failure_leaves_sink_untouched_witness :
  let s := {| self := new_logger ["out.csv"] (Fin (1 # 10));
              env := world0 lab_unreachable [] |} in
  let r := run {| early_sigint := 0; ticks := [good_tick None 1] |} s in
  r.1 = Ret false /\ fs (env r.2) = ∅.
Proof.
  intros s r.
  destruct (connection_failure_leaves_sink_untouched
              {| early_sigint := 0; ticks := [good_tick None 1] |} s
              DriverError eq_refl)
    as (s' & Hr & Hfs & _).
  subst r. rewrite Hr. split; [reflexivity|exact Hfs].
Defined.

(** ** The methods of the loop *)

Lemma get_stage_position_ok (x y z a b : Q) (more : list Q) (d : Q)
    (s : session) :
  tem (self s) <> None ->
  get_stage_position (ReadOk (x :: y :: z :: a :: b :: more)) d s =
    (Ret (Some {| timestamp := (clock (env s) + d)%Q; x_position := x;
                  y_position := y; z_position := z; alpha_tilt := a;
                  beta_tilt := b |}),
     {| self := self s;
        env := with_clock (clock (env s) + d)%Q
                 (with_trace (trace (env s) ++ [EvTem GetPos]) (env s)) |}).
Proof.
  intros Ht. unfold get_stage_position, try_except, Stage3_GetPos.
  erewrite bind_ret_eq.
  2:{ erewrite bind_ret_eq by reflexivity. cbn beta.
      destruct (tem (self s)); [|congruence]. reflexivity. }
  reflexivity.
Qed.

Lemma get_stage_position_fails (r : read_result) (d : Q) (s : session) :
  read_fails r = true ->
  exists e w,
    get_stage_position r d s = (Ret None, {| self := self s; env := w |}) /\
    host w = host (env s) /\ fs w = fs (env s) /\ stdin w = stdin (env s) /\
    unflushed w = unflushed (env s) /\
    trace w =
      trace (env s) ++
        match tem (self s) with Some _ => [EvTem GetPos] | None => [] end ++
        [EvPrint (MsgErrorReading e)].
Proof.
  intros Hr. unfold get_stage_position, try_except, Stage3_GetPos.
  destruct (tem (self s)) as [drv|] eqn:Et.
  - destruct r as [xs|].
    + unfold read_fails in Hr. apply Nat.ltb_lt in Hr.
      exists IndexError. eexists. split.
      * erewrite bind_ret_eq.
        2:{ erewrite bind_ret_eq by reflexivity. cbn beta. rewrite Et.
            reflexivity. }
        cbn beta. erewrite bind_ret_eq by reflexivity. cbn beta.
        do 5 (destruct xs as [|? xs]; [reflexivity|]).
        cbn in Hr. lia.
      * cbn. repeat split. rewrite <- app_assoc. reflexivity.
    + exists DriverError. eexists. split.
      * erewrite bind_raise_eq.
        2:{ erewrite bind_ret_eq by reflexivity. cbn beta. rewrite Et.
            reflexivity. }
        reflexivity.
      * cbn. repeat split. rewrite <- app_assoc. reflexivity.
  - exists AttributeError. eexists. split.
    + erewrite bind_raise_eq.
      2:{ erewrite bind_ret_eq by reflexivity. cbn beta. rewrite Et.
          reflexivity. }
      reflexivity.
    + cbn. repeat split.
Qed.

Lemma log_position_ok (d : position) (t : Q) (s : session)
    (names : list string) (p : path) :
  csv_writer (self s) = Some names ->
  csv_file (self s) = Some {| h_path := p; h_closed := false |} ->
  log_position d None t s =
    (Ret true,
     {| self := self s;
        env := with_unflushed []
                 (with_fs
                    (append_rows p (unflushed (env s) ++ [row_of d])
                       (fs (env s)))
                    (with_trace (trace (env s) ++ [EvWrite p (row_of d)])
                       (with_clock (clock (env s) + t)%Q (env s)))) |}).
Proof.
  intros Hw Hf. unfold log_position, try_except.
  do 2 (erewrite bind_ret_eq by reflexivity; cbn beta).
  rewrite Hw, Hf. reflexivity.
Qed.


Lemma time_sleep_ok (q : Q) (n : nat) (s : session) :
  sleep_error (Fin q) = None ->
  time_sleep (Fin q) n s =
    deliver n
      {| self := self s;
         env := with_clock (clock (env s) + q)%Q
                  (with_trace (trace (env s) ++ [EvSleep (Fin q)]) (env s)) |}.
Proof.
  intros Hs. unfold time_sleep.
  erewrite bind_ret_eq by reflexivity. cbn beta. rewrite Hs.
  erewrite bind_ret_eq by reflexivity. reflexivity.
Qed.

Lemma time_sleep_raises (d : pyfloat) (e : exception) (n : nat)
    (s : session) :
  sleep_error d = Some e ->
  time_sleep d n s =
    (Raise e,
     {| self := self s;
        env := with_trace (trace (env s) ++ [EvSleep d]) (env s) |}).
Proof.
  intros Hs. unfold time_sleep.
  erewrite bind_ret_eq by reflexivity. cbn beta. rewrite Hs. reflexivity.
Qed.

Lemma sleep_error_finite (d : pyfloat) :
  sleep_error d = None -> exists q, d = Fin q.
Proof. destruct d; cbn; try discriminate. eauto. Qed.

Lemma signal_events_no_write (n : nat) :
  Forall (fun ev => forall p r, ev <> EvWrite p r) (signal_events n).
Proof. induction n; cbn; repeat constructor; try discriminate; assumption. Qed.

Lemma new_events_app (w w' : world) (evs : list event) :
  trace w' = trace w ++ evs -> new_events w w' = evs.
Proof. intros H. unfold new_events. rewrite H. apply drop_app_length. Qed.

Lemma flag_history_signal_events (n : nat) :
  flag_history (signal_events n) = replicate n false.
Proof. induction n as [|n IH]; [reflexivity|]. cbn. f_equal. exact IH. Qed.

Lemma sleeps_signal_events (n : nat) : sleeps (signal_events n) = [].
Proof. induction n; [reflexivity|exact IHn]. Qed.

Lemma tem_calls_signal_events (n : nat) : tem_calls (signal_events n) = [].
Proof. induction n; [reflexivity|exact IHn]. Qed.

Lemma iteration_failed_read (t : tick) (n : nat) (start : Q) (s : session) :
  read_fails (reading t) = true ->
  sleep_error (interval (self s)) = None ->
  exists s' e,
    iteration t n start s = (Ret n, s') /\
    undisturbed s s' /\
    running (self s') =
      match (sigint_before_read t + sigint_in_read t + sigint_in_sleep t)%nat
      with
      | O => running (self s)
      | S _ => false
      end /\
    trace (env s') =
      trace (env s) ++ signal_events (sigint_before_read t) ++
        match tem (self s) with Some _ => [EvTem GetPos] | None => [] end ++
        [EvPrint (MsgErrorReading e)] ++ signal_events (sigint_in_read t) ++
        [EvSleep (interval (self s))] ++ signal_events (sigint_in_sleep t).
Proof.
  intros Hr Hs.
  destruct (deliver_spec (sigint_before_read t) s)
    as (s1 & Hd1 & Hu1 & Ht1 & Hr1 & Hc1).
  pose proof (undisturbed_fields _ _ Hu1) as (_ & Hi1 & Htem1 & _).
  destruct (get_stage_position_fails (reading t) (read_time t) s1 Hr)
    as (e & w1 & Hg & Hh1 & Hf1 & Hin1 & Hb1 & Htw1).
  destruct (deliver_spec (sigint_in_read t) {| self := self s1; env := w1 |})
    as (s2 & Hd2 & Hu2 & Ht2 & Hr2 & Hc2).
  pose proof (undisturbed_fields _ _ Hu2) as (_ & Hi2 & _).
  cbn [self env] in Hi2, Ht2, Hr2, Hc2.
  destruct (sleep_error_finite _ Hs) as (q & Hq).
  destruct (deliver_spec (sigint_in_sleep t)
              {| self := self s2;
                 env := with_clock (clock (env s2) + q)%Q
                          (with_trace (trace (env s2) ++ [EvSleep (Fin q)])
                             (env s2)) |})
    as (s3 & Hd3 & Hu3 & Ht3 & Hr3 & Hc3).
  cbn [self env trace with_trace with_clock] in Ht3, Hr3.
  exists s3, e. split; [|split; [|split]].
  - unfold iteration.
    erewrite bind_ret_eq by exact Hd1. cbn beta.
    erewrite bind_ret_eq by exact Hg. cbn beta.
    erewrite bind_ret_eq by exact Hd2. cbn beta iota.
    do 2 (erewrite bind_ret_eq by reflexivity; cbn beta).
    rewrite Hi2, Hi1, Hq.
    erewrite bind_ret_eq; [reflexivity|].
    rewrite time_sleep_ok by (rewrite <- Hq; exact Hs). exact Hd3.
  - eapply undisturbed_trans; [exact Hu1|].
    eapply undisturbed_trans; [|exact Hu3].
    eapply undisturbed_trans; [|split; [reflexivity|]].
    + eapply undisturbed_trans; [|exact Hu2].
      split; [reflexivity|]. cbn.
      unfold with_clock, with_trace. cbn. rewrite Hh1, Hf1, Hin1, Hb1.
      reflexivity.
    + reflexivity.
  - rewrite Hr3, Hr2, Hr1.
    destruct (sigint_before_read t), (sigint_in_read t), (sigint_in_sleep t);
      reflexivity.
  - rewrite Ht3, Ht2, Htw1, Ht1, Htem1, Hq, <- !app_assoc. reflexivity.
Qed.

(** C5.  An iteration whose stage read raises or returns fewer than five
    values prints the error and goes on.  The loop continues with the
    next iteration and the same count, and nothing of the logger or of
    the world has changed but the clock and the trace: the file system
    and the buffer of the log are as they were, and no row is written.
    The driver was called once at most, the loop slept once, for the
    interval, and [running] was stored to by the interrupts delivered in
    the meantime only: when none arrived the flag is still set after the
    iteration, so that the loop is not terminated. *)
Theorem failed_read_is_skipped
    (t : tick) (ts : list tick) (n : nat) (start : Q) (s : session) :
  running (self s) = true ->
  read_fails (reading t) = true ->
  sleep_error (interval (self s)) = None ->
  let interrupts :=
    (sigint_before_read t + sigint_in_read t + sigint_in_sleep t)%nat in
  exists s' e,
    loop (t :: ts) n start s = loop ts n start s' /\
    undisturbed s s' /\
    running (self s') = match interrupts with O => true | S _ => false end /\
    fs (env s') = fs (env s) /\
    unflushed (env s') = unflushed (env s) /\
    flag_history (new_events (env s) (env s')) = replicate interrupts false /\
    tem_calls (new_events (env s) (env s')) =
      match tem (self s) with Some _ => [GetPos] | None => [] end /\
    sleeps (new_events (env s) (env s')) = [interval (self s)] /\
    In (EvPrint (MsgErrorReading e)) (new_events (env s) (env s')) /\
    Forall (fun ev => forall p r, ev <> EvWrite p r)
      (new_events (env s) (env s')).
Proof.
  intros Hrun Hr Hs interrupts.
  destruct (iteration_failed_read t n start s Hr Hs)
    as (s' & e & Hi & Hu & Hrun' & Ht).
  pose proof (undisturbed_fields _ _ Hu)
    as (_ & _ & _ & _ & _ & _ & Hfs & _ & Hb).
  apply new_events_app in Ht.
  exists s', e. rewrite Ht.
  split; [|split; [exact Hu|split; [|split; [exact Hfs|split; [exact Hb|split;
    [|split; [|split; [|split]]]]]]]].
  - cbn [loop]. erewrite bind_ret_eq by reflexivity. cbn beta.
    rewrite Hrun. erewrite bind_ret_eq by exact Hi. reflexivity.
  - rewrite Hrun'. rewrite Hrun. reflexivity.
  - unfold flag_history. rewrite !omap_app.
    fold (flag_history (signal_events (sigint_before_read t))).
    fold (flag_history (signal_events (sigint_in_read t))).
    fold (flag_history (signal_events (sigint_in_sleep t))).
    rewrite !flag_history_signal_events. unfold interrupts.
    rewrite !replicate_add, <- !app_assoc.
    destruct (tem (self s)); reflexivity.
  - unfold tem_calls. rewrite !omap_app.
    fold (tem_calls (signal_events (sigint_before_read t))).
    fold (tem_calls (signal_events (sigint_in_read t))).
    fold (tem_calls (signal_events (sigint_in_sleep t))).
    rewrite !tem_calls_signal_events.
    destruct (tem (self s)); reflexivity.
  - unfold sleeps. rewrite !omap_app.
    fold (sleeps (signal_events (sigint_before_read t))).
    fold (sleeps (signal_events (sigint_in_read t))).
    fold (sleeps (signal_events (sigint_in_sleep t))).
    rewrite !sleeps_signal_events.
    destruct (tem (self s)); reflexivity.
  - apply in_or_app. right. apply in_or_app. right. left. reflexivity.
  - repeat (apply Forall_app; split);
      try apply signal_events_no_write;
      destruct (tem (self s)); repeat constructor; discriminate.
Qed.

(** A short tuple, no interrupt: the flag is still set after the
    iteration and the loop goes on to the next sample. *)
Lemma failed_read_is_skipped_witness :
  let s := logging ["out.csv"] (Fin (1 # 10)) (world0 lab []) in
  let short := read_tick (ReadOk [1; 2]%Q) in
  exists s',
    loop [short; good_tick None 1] 0 0 s = loop [good_tick None 1] 0 0 s' /\
    running (self s') = true /\
    fs (env s') = fs (env s) /\
    flag_history (new_events (env s) (env s')) = [].
Proof.
  intros s short.
  destruct (failed_read_is_skipped short [good_tick None 1] 0 0 s
              eq_refl eq_refl eq_refl)
    as (s' & e & Hl & _ & Hrun & Hf & _ & Hh & _).
  exists s'. split; [exact Hl|]. split; [exact Hrun|].
  split; [exact Hf|exact Hh].
Defined.

Lemma read_succeeds (r : read_result) :
  read_fails r = false ->
  exists x y z a b more, r = ReadOk (x :: y :: z :: a :: b :: more).
Proof.
  destruct r as [xs|]; [|discriminate]. unfold read_fails.
  intros H. apply Nat.ltb_ge in H.
  do 5 (destruct xs as [|? xs]; [cbn in H; lia|]). eauto 10.
Qed.

Lemma ready_undisturbed (s s' : session) :
  ready s -> undisturbed s s' -> ready s'.
Proof.
  intros (H1 & H2 & H3) Hu. apply undisturbed_fields in Hu.
  destruct Hu as (Ho & _ & Ht & Hw & Hf & _).
  unfold ready. rewrite Ht, Hw, Hf, Ho. auto.
Qed.



(** The lines of status printed after every tenth row. *)
Lemma status_report (n : nat) (start : Q) (s : session) :
  exists logged,
    (if (n mod 10 =? 0)%nat
     then
       do now <- io time_time;
       let elapsed := (now - start)%Q in
       let rate :=
         if negb (Qle_bool elapsed 0)
         then (inject_Z (Z.of_nat n) / elapsed)%Q
         else 0%Q in
       io (print (MsgLogged n rate))
     else ret tt) s =
      (Ret tt,
       {| self := self s;
          env := with_trace (trace (env s) ++ logged) (env s) |}) /\
    Forall (fun ev => is_print ev = true) logged.
Proof.
  destruct (n mod 10 =? 0)%nat.
  - eexists. split; [cbn; reflexivity|]. repeat constructor.
  - exists []. split; [|constructor].
    destruct s as [l [h f tr i c u]]. cbn. rewrite app_nil_r. reflexivity.
Qed.

Lemma iteration_accepted
    (t : tick) (n : nat) (start : Q) (s : session)
    (x y z a b : Q) (more : list Q) (q : Q) :
  ready s ->
  reading t = ReadOk (x :: y :: z :: a :: b :: more) ->
  write_error t = None ->
  interval (self s) = Fin q ->
  sleep_error (Fin q) = None ->
  let d := {| timestamp := (clock (env s) + read_time t)%Q; x_position := x;
              y_position := y; z_position := z; alpha_tilt := a;
              beta_tilt := b |} in
  let p := output_file (self s) in
  exists s' logged,
    iteration t n start s = (Ret (S n), s') /\
    set_running true (self s') = set_running true (self s) /\
    running (self s') =
      match (sigint_before_read t + sigint_in_read t + sigint_in_sleep t)%nat
      with
      | O => running (self s)
      | S _ => false
      end /\
    host (env s') = host (env s) /\
    fs (env s') =
      append_rows p (unflushed (env s) ++ [row_of d]) (fs (env s)) /\
    unflushed (env s') = [] /\
    clock (env s') = (clock (env s) + read_time t + write_time t + q)%Q /\
    trace (env s') =
      trace (env s) ++ signal_events (sigint_before_read t) ++
        [EvTem GetPos] ++ signal_events (sigint_in_read t) ++
        [EvWrite p (row_of d)] ++ logged ++ [EvSleep (Fin q)] ++
        signal_events (sigint_in_sleep t) /\
    Forall (fun ev => is_print ev = true) logged.
Proof.
  intros Hready Hxs Hw Hi Hs d p.
  destruct (deliver_spec (sigint_before_read t) s)
    as (s1 & Hd1 & Hu1 & Ht1 & Hr1 & Hc1).
  pose proof (ready_undisturbed _ _ Hready Hu1) as (Htem & Hwr & Hfile).
  pose proof (undisturbed_fields _ _ Hu1)
    as (Ho1 & Hi1 & _ & _ & _ & Hh1 & Hfs1 & _ & Hb1).
  unfold d, p. clear d p. rewrite <- Hc1, <- Ho1.
  set (d := {| timestamp := (clock (env s1) + read_time t)%Q;
               x_position := x; y_position := y; z_position := z;
               alpha_tilt := a; beta_tilt := b |}).
  set (p := output_file (self s1)).
  destruct (csv_writer (self s1)) as [names|] eqn:Hnames; [|congruence].
  destruct (deliver_spec (sigint_in_read t)
              {| self := self s1;
                 env := with_clock (clock (env s1) + read_time t)%Q
                          (with_trace (trace (env s1) ++ [EvTem GetPos])
                             (env s1)) |})
    as (s2 & Hd2 & Hu2 & Ht2 & Hr2 & Hc2).
  pose proof (undisturbed_fields _ _ Hu2)
    as (Ho2 & Hi2 & _ & Hw2 & Hf2 & Hh2 & Hfs2 & _ & Hb2).
  cbn [self env trace with_trace with_clock clock fs host with_fs unflushed]
    in Ho2, Hi2, Hw2, Hf2, Ht2, Hr2, Hc2, Hh2, Hfs2, Hb2.
  set (s3 := {| self := self s2;
                env := with_unflushed []
                         (with_fs
                            (append_rows p (unflushed (env s2) ++ [row_of d])
                               (fs (env s2)))
                            (with_trace
                               (trace (env s2) ++ [EvWrite p (row_of d)])
                               (with_clock (clock (env s2) + write_time t)%Q
                                  (env s2)))) |}).
  destruct (status_report (S n) start s3) as (logged & Hl & Hp).
  subst s3.
  cbn [self env trace with_trace with_clock with_fs with_unflushed] in Hl.
  destruct (deliver_spec (sigint_in_sleep t)
              {| self := self s2;
                 env := with_clock (clock (env s2) + write_time t + q)%Q
                          (with_trace
                             (((trace (env s2) ++ [EvWrite p (row_of d)])
                                 ++ logged) ++ [EvSleep (Fin q)])
                             (with_unflushed []
                                (with_fs
                                   (append_rows p
                                      (unflushed (env s2) ++ [row_of d])
                                      (fs (env s2)))
                                   (env s2)))) |})
    as (s5 & Hd5 & Hu5 & Ht5 & Hr5 & Hc5).
  pose proof (undisturbed_fields _ _ Hu5)
    as (_ & _ & _ & _ & _ & Hh5 & Hfs5 & _ & Hb5).
  destruct Hu5 as [Hself5 _]. destruct Hu2 as [Hself2 _].
  destruct Hu1 as [Hself1 _].
  cbn [self env trace with_trace with_clock clock fs host with_fs unflushed
       with_unflushed]
    in Ht5, Hr5, Hc5, Hh5, Hfs5, Hb5, Hself5, Hself2.
  exists s5, logged. split; [|repeat split].
  - unfold iteration. rewrite Hxs, Hw.
    erewrite bind_ret_eq by exact Hd1. cbn beta.
    erewrite bind_ret_eq by (apply get_stage_position_ok; exact Htem).
    cbn beta.
    erewrite bind_ret_eq by exact Hd2. cbn beta iota.
    erewrite bind_ret_eq.
    2:{ erewrite bind_ret_eq.
        2:{ eapply log_position_ok; [rewrite Hw2; exact Hnames|].
            rewrite Hf2. exact Hfile. }
        cbn beta iota zeta.
        erewrite bind_ret_eq by exact Hl. reflexivity. }
    cbn beta.
    erewrite bind_ret_eq by reflexivity. cbn beta. cbn [self].
    rewrite Hi2, Hi1, Hi.
    erewrite bind_ret_eq; [reflexivity|].
    rewrite time_sleep_ok by exact Hs. exact Hd5.
  - congruence.
  - rewrite Hr5, Hr2, Hr1.
    destruct (sigint_before_read t), (sigint_in_read t), (sigint_in_sleep t);
      reflexivity.
  - congruence.
  - rewrite Hfs5, Hfs2, Hb2, Hfs1, Hb1. reflexivity.
  - exact Hb5.
  - rewrite Hc5, Hc2. reflexivity.
  - rewrite Ht5, Ht2, Ht1, <- !app_assoc. reflexivity.
  - exact Hp.
Qed.

(** ** Pacing *)

Lemma written_times_signal_events (n : nat) :
  written_times (signal_events n) = [].
Proof. induction n; [reflexivity|exact IHn]. Qed.

Lemma sleeps_prints (l : list event) :
  Forall (fun ev => is_print ev = true) l -> sleeps l = [].
Proof.
  induction 1 as [|ev l Hev _ IH]; [reflexivity|].
  destruct ev; try discriminate. exact IH.
Qed.

Lemma written_times_prints (l : list event) :
  Forall (fun ev => is_print ev = true) l -> written_times l = [].
Proof.
  induction 1 as [|ev l Hev _ IH]; [reflexivity|].
  destruct ev; try discriminate. exact IH.
Qed.

(** One accepted sample: what is slept, what is written, and how long
    the iteration lasts. *)
Lemma iteration_accepted_pacing
    (t : tick) (n : nat) (start : Q) (s : session) (q : Q) :
  ready s ->
  read_fails (reading t) = false ->
  write_error t = None ->
  interval (self s) = Fin q ->
  sleep_error (Fin q) = None ->
  exists s',
    iteration t n start s = (Ret (S n), s') /\
    ready s' /\
    interval (self s') = Fin q /\
    sleeps (new_events (env s) (env s')) = [Fin q] /\
    written_times (new_events (env s) (env s')) =
      [(clock (env s) + read_time t)%Q] /\
    clock (env s') = (clock (env s) + read_time t + write_time t + q)%Q.
Proof.
  intros Hready Hr Hw Hi Hs.
  destruct (read_succeeds _ Hr) as (x & y & z & a & b & more & Hxs).
  destruct (iteration_accepted t n start s x y z a b more q
              Hready Hxs Hw Hi Hs)
    as (s' & logged & Hit & Hself & _ & _ & _ & _ & Hc & Ht & Hp).
  exists s'. split; [exact Hit|]. split; [|split; [|split; [|split]]].
  - destruct Hready as (H1 & H2 & H3). unfold ready.
    rewrite (f_equal tem Hself : tem (self s') = tem (self s)).
    rewrite (f_equal csv_writer Hself
              : csv_writer (self s') = csv_writer (self s)).
    rewrite (f_equal csv_file Hself : csv_file (self s') = csv_file (self s)).
    rewrite (f_equal output_file Hself
              : output_file (self s') = output_file (self s)).
    auto.
  - rewrite <- Hi. exact (f_equal interval Hself).
  - rewrite (new_events_app _ _ _ Ht). unfold sleeps.
    rewrite !omap_app.
    fold (sleeps (signal_events (sigint_before_read t))).
    fold (sleeps (signal_events (sigint_in_read t))).
    fold (sleeps (signal_events (sigint_in_sleep t))). fold (sleeps logged).
    rewrite !sleeps_signal_events, (sleeps_prints _ Hp). reflexivity.
  - rewrite (new_events_app _ _ _ Ht). unfold written_times.
    rewrite !omap_app.
    fold (written_times (signal_events (sigint_before_read t))).
    fold (written_times (signal_events (sigint_in_read t))).
    fold (written_times (signal_events (sigint_in_sleep t))).
    fold (written_times logged).
    rewrite !written_times_signal_events, (written_times_prints _ Hp).
    reflexivity.
  - exact Hc.
Qed.

(** C2, as the code has it.  An iteration that acquires and persists a
    sample calls [time.sleep] once, with the configured interval itself:
    no instant is taken at the start of the iteration and no elapsed time
    is subtracted.  The timestamps of two consecutive accepted samples
    are therefore the interval plus the time of the write of the first
    and of the read of the second apart. *)
Theorem sleep_is_the_whole_interval
    (t1 t2 : tick) (n : nat) (start : Q) (s : session) (q : Q) :
  ready s ->
  read_fails (reading t1) = false -> write_error t1 = None ->
  read_fails (reading t2) = false -> write_error t2 = None ->
  interval (self s) = Fin q ->
  sleep_error (Fin q) = None ->
  exists s1 s2 now1 now2,
    iteration t1 n start s = (Ret (S n), s1) /\
    iteration t2 (S n) start s1 = (Ret (S (S n)), s2) /\
    sleeps (new_events (env s) (env s1)) = [Fin q] /\
    sleeps (new_events (env s1) (env s2)) = [Fin q] /\
    written_times (new_events (env s) (env s1)) = [now1] /\
    written_times (new_events (env s1) (env s2)) = [now2] /\
    (now2 - now1 == q + write_time t1 + read_time t2)%Q.
Proof.
  intros Hready Hr1 Hw1 Hr2 Hw2 Hi Hs.
  destruct (iteration_accepted_pacing t1 n start s q Hready Hr1 Hw1 Hi Hs)
    as (s1 & Hit1 & Hready1 & Hi1 & Hsl1 & Hwt1 & Hc1).
  destruct (iteration_accepted_pacing t2 (S n) start s1 q
              Hready1 Hr2 Hw2 Hi1 Hs)
    as (s2 & Hit2 & _ & _ & Hsl2 & Hwt2 & _).
  exists s1, s2, (clock (env s) + read_time t1)%Q,
    (clock (env s1) + read_time t2)%Q.
  repeat split; try assumption.
  rewrite Hc1. ring.
Qed.

Lemma sleep_is_the_whole_interval_witness :
  let s := logging ["out.csv"] (Fin (1 # 10)) (world0 lab []) in
  let t := good_tick None 0 in
  exists s1 s2 now1 now2,
    iteration t 0 0 s = (Ret 1%nat, s1) /\
    iteration t 1 0 s1 = (Ret 2%nat, s2) /\
    sleeps (new_events (env s) (env s1)) = [Fin (1 # 10)] /\
    sleeps (new_events (env s1) (env s2)) = [Fin (1 # 10)] /\
    written_times (new_events (env s) (env s1)) = [now1] /\
    written_times (new_events (env s1) (env s2)) = [now2] /\
    (now2 - now1 == (1 # 10) + write_time t + read_time t)%Q.
Proof.
  intros s t.
  apply (sleep_is_the_whole_interval t t 0 0 s (1 # 10));
    try reflexivity.
  repeat split; discriminate.
Defined.

(** With an interval of 0.1 s and an acquisition of 0.05 s the loop
    sleeps 0.1 s after each sample, not the 0.05 s that remain of the
    interval, and the two samples of the session are 0.15 s apart. *)
Lemma sleep_does_not_subtract_elapsed :
  let r := run {| early_sigint := 0;
                  ticks := [good_tick None 0; good_tick None 1] |}
             {| self := new_logger ["out.csv"] (Fin (1 # 10));
                env := world0 lab [] |} in
  r.1 = Ret true /\
  sleeps (trace (env r.2)) = [Fin (1 # 10); Fin (1 # 10)] /\
  (Qmax 0 ((1 # 10) - (1 # 20)) == 1 # 20)%Q /\
  map Qred (written_times (trace (env r.2))) = [1 # 20; 1 # 5]%Q.
Proof. vm_compute. repeat split; reflexivity. Qed.

(** ** Write failures *)




(** ** The trace of a session *)

Section Emits.

Context (P : event -> bool).

Lemma emits_ret {A : Type} (a : A) : emits P (ret a).
Proof. intros w. exists []. rewrite app_nil_r. split; constructor. Qed.

Lemma emits_raise {A : Type} (e : exn) : emits P (raise (A := A) e).
Proof. intros w. exists []. rewrite app_nil_r. split; constructor. Qed.

Lemma emits_gets {A : Type} (f : world -> A) : emits P (gets f).
Proof. intros w. exists []. rewrite app_nil_r. split; constructor. Qed.

Lemma emits_modify (f : world -> world) :
  (forall w, trace (f w) = trace w) -> emits P (modify f).
Proof.
  intros Hf w. exists []. rewrite app_nil_r. split; [apply Hf|constructor].
Qed.

Lemma emits_emit (e : event) : P e = true -> emits P (emit e).
Proof. intros He w. exists [e]. split; [reflexivity|repeat constructor; exact He]. Qed.

Lemma emits_bind {A B : Type} (c : M world A) (k : A -> M world B) :
  emits P c -> (forall a, emits P (k a)) -> emits P (bind c k).
Proof.
  intros Hc Hk w. destruct (Hc w) as (evs & Ht & Hp). unfold bind.
  destruct (c w) as [[a|e|] w1]; cbn [snd] in Ht |- *;
    try (exists evs; split; assumption).
  destruct (Hk a w1) as (evs' & Ht' & Hp').
  exists (evs ++ evs'). rewrite Ht', Ht, app_assoc. split; [reflexivity|].
  apply Forall_app. split; assumption.
Qed.

Lemma emits_try_except {A : Type} (body : M world A)
    (handler : exception -> M world A) :
  emits P body -> (forall e, emits P (handler e)) ->
  emits P (try_except body handler).
Proof.
  intros Hc Hk w. destruct (Hc w) as (evs & Ht & Hp). unfold try_except.
  destruct (body w) as [[a|[e|code]|] w1]; cbn [snd] in Ht |- *;
    try (exists evs; split; assumption).
  destruct (Hk e w1) as (evs' & Ht' & Hp').
  exists (evs ++ evs'). rewrite Ht', Ht, app_assoc. split; [reflexivity|].
  apply Forall_app. split; assumption.
Qed.

Lemma emits_of_sum {A : Type} (r : exception + A) : emits P (of_sum r).
Proof. destruct r; [apply emits_raise|apply emits_ret]. Qed.

Lemma emits_fs_call (op : filesystem -> exception + filesystem) :
  emits P (fs_call op).
Proof.
  unfold fs_call. apply emits_bind; [apply emits_gets|intros f].
  apply emits_bind; [apply emits_of_sum|intros f'].
  apply emits_modify. reflexivity.
Qed.

Lemma emits_advance (d : Q) : emits P (advance d).
Proof. apply emits_modify. reflexivity. Qed.

Lemma emits_flush (h : handle) (e : option exception) : emits P (flush h e).
Proof. destruct e; [apply emits_raise|apply emits_modify; reflexivity]. Qed.

Lemma emits_print (m : message) :
  P (EvPrint m) = true -> emits P (print m).
Proof. apply emits_emit. Qed.

End Emits.

Lemma emits_weaken (P P' : event -> bool) {A : Type} (c : M world A) :
  (forall e, P e = true -> P' e = true) -> emits P c -> emits P' c.
Proof.
  intros HP Hc w. destruct (Hc w) as (evs & Ht & Hp). exists evs.
  split; [exact Ht|]. eapply Forall_impl; [exact Hp|exact HP].
Qed.

Lemma quiet_is_logger_event (e : event) :
  quiet_event e = true -> logger_event e = true.
Proof. destruct e as [| [] | | | | |[]]; (discriminate || reflexivity). Qed.

Lemma quiet_no_flag (evs : list event) :
  Forall (fun e => quiet_event e = true) evs -> flag_history evs = [].
Proof.
  induction 1 as [|e evs He _ IH]; [reflexivity|].
  destruct e; try discriminate; exact IH.
Qed.

Lemma flag_after_nil (b : bool) : flag_after b [] = b.
Proof. reflexivity. Qed.

Lemma flag_after_app (b : bool) (evs evs' : list event) :
  flag_after (flag_after b evs) evs' = flag_after b (evs ++ evs').
Proof.
  unfold flag_after, flag_history. rewrite omap_app, last_app.
  destruct (last (omap flag_of evs')); reflexivity.
Qed.

Lemma flag_after_quiet (b : bool) (evs : list event) :
  Forall (fun e => quiet_event e = true) evs -> flag_after b evs = b.
Proof. intros H. unfold flag_after. rewrite (quiet_no_flag _ H). reflexivity. Qed.

Lemma orderly_nothing {A : Type} (c : M session A) :
  (forall s, (c s).2 = s) -> orderly c.
Proof.
  intros H s. exists []. rewrite H, app_nil_r.
  split; [reflexivity|]. split; [constructor|reflexivity].
Qed.

Lemma orderly_ret {A : Type} (a : A) : orderly (ret a).
Proof. apply orderly_nothing. reflexivity. Qed.

Lemma orderly_raise {A : Type} (e : exn) : orderly (raise (A := A) e).
Proof. apply orderly_nothing. reflexivity. Qed.

Lemma orderly_exhausted {A : Type} : orderly (exhausted (A := A)).
Proof. apply orderly_nothing. reflexivity. Qed.

Lemma orderly_attr {A : Type} (f : logger -> A) : orderly (attr f).
Proof. apply orderly_nothing. reflexivity. Qed.

Lemma orderly_item (stage_data : list Q) (i : nat) :
  orderly (item stage_data i).
Proof.
  unfold item. destruct (stage_data !! i); [apply orderly_ret|apply orderly_raise].
Qed.

Lemma orderly_store (f : logger -> logger) :
  (forall l, running (f l) = running l) -> orderly (store f).
Proof.
  intros Hf s. exists []. rewrite app_nil_r.
  split; [reflexivity|]. split; [constructor|apply Hf].
Qed.

Lemma orderly_io {A : Type} (c : M world A) :
  emits quiet_event c -> orderly (io c).
Proof.
  intros Hc s. destruct (Hc (env s)) as (evs & Ht & Hp). exists evs.
  unfold io. destruct (c (env s)) as [r w]. cbn [snd self env] in Ht |- *.
  split; [exact Ht|]. split.
  - eapply Forall_impl; [exact Hp|exact quiet_is_logger_event].
  - rewrite (flag_after_quiet _ _ Hp). reflexivity.
Qed.

(** What a continuation adds to an orderly prefix. *)
Lemma orderly_then (s s1 s2 : session) (evs : list event) :
  trace (env s1) = trace (env s) ++ evs ->
  Forall (fun e => logger_event e = true) evs ->
  running (self s1) = flag_after (running (self s)) evs ->
  (exists evs',
     trace (env s2) = trace (env s1) ++ evs' /\
     Forall (fun e => logger_event e = true) evs' /\
     running (self s2) = flag_after (running (self s1)) evs') ->
  exists evs',
    trace (env s2) = trace (env s) ++ evs' /\
    Forall (fun e => logger_event e = true) evs' /\
    running (self s2) = flag_after (running (self s)) evs'.
Proof.
  intros Ht Hp Hr (evs' & Ht' & Hp' & Hr'). exists (evs ++ evs').
  split; [rewrite Ht', Ht, app_assoc; reflexivity|]. split.
  - apply Forall_app. split; assumption.
  - rewrite Hr', Hr. apply flag_after_app.
Qed.

Lemma orderly_bind {A B : Type} (c : M session A) (k : A -> M session B) :
  orderly c -> (forall a, orderly (k a)) -> orderly (bind c k).
Proof.
  intros Hc Hk s. destruct (Hc s) as (evs & Ht & Hp & Hr). unfold bind.
  destruct (c s) as [[a|e|] s1]; cbn [snd] in Ht, Hr |- *;
    try (exists evs; repeat split; assumption).
  eapply orderly_then; [exact Ht|exact Hp|exact Hr|apply Hk].
Qed.

Lemma orderly_try_except {A : Type} (body : M session A)
    (handler : exception -> M session A) :
  orderly body -> (forall e, orderly (handler e)) ->
  orderly (try_except body handler).
Proof.
  intros Hc Hk s. destruct (Hc s) as (evs & Ht & Hp & Hr). unfold try_except.
  destruct (body s) as [[a|[e|code]|] s1]; cbn [snd] in Ht, Hr |- *;
    try (exists evs; repeat split; assumption).
  eapply orderly_then; [exact Ht|exact Hp|exact Hr|apply Hk].
Qed.

Lemma orderly_try_finally {A : Type} (body : M session A)
    (final : M session unit) :
  orderly body -> orderly final -> orderly (try_finally body final).
Proof.
  intros Hc Hk s. destruct (Hc s) as (evs & Ht & Hp & Hr).
  unfold try_finally.
  destruct (body s) as [[a|e|] s1]; cbn [snd] in Ht, Hr |- *;
    try (exists evs; repeat split; assumption);
    (eapply orderly_then; [exact Ht|exact Hp|exact Hr|]);
    specialize (Hk s1); destruct (final s1) as [[[]|e'|] s2]; exact Hk.
Qed.

Lemma orderly_signal_handler (signum : Z) : orderly (signal_handler signum).
Proof.
  intros s.
  exists [EvPrint (MsgReceivedSignal signum); EvSetRunning false].
  cbn. rewrite <- app_assoc. repeat split; repeat constructor.
Qed.

Lemma orderly_deliver (n : nat) : orderly (deliver n).
Proof.
  induction n as [|n IH]; [apply orderly_ret|].
  cbn [deliver]. apply orderly_bind; [apply orderly_signal_handler|].
  intros _. exact IH.
Qed.

Create HintDb orderly.

#[local] Hint Resolve emits_ret emits_raise emits_gets emits_of_sum
  emits_fs_call emits_advance emits_flush : orderly.
#[local] Hint Resolve orderly_ret orderly_raise orderly_exhausted
  orderly_attr orderly_item orderly_deliver orderly_signal_handler : orderly.

(** Goals of the shape [orderly c] and [emits P c], by the structure of
    [c]. *)
Ltac orderly_step :=
  match goal with
  | |- orderly (bind _ _) => apply orderly_bind; [|intros ?]
  | |- orderly (try_except _ _) => apply orderly_try_except; [|intros ?]
  | |- orderly (try_finally _ _) => apply orderly_try_finally
  | |- orderly (io _) => apply orderly_io
  | |- orderly (store _) => apply orderly_store; intros ?; reflexivity
  | |- emits _ (bind _ _) => apply emits_bind; [|intros ?]
  | |- emits _ (try_except _ _) => apply emits_try_except; [|intros ?]
  | |- emits _ (emit _) => apply emits_emit; reflexivity
  | |- emits _ (print _) => apply emits_print; reflexivity
  | |- emits _ (modify _) => apply emits_modify; intros ?; reflexivity
  | |- emits _ time_time => apply emits_gets
  | |- orderly (match ?x with _ => _ end) => destruct x
  | |- emits _ (match ?x with _ => _ end) => destruct x
  | |- _ => solve [auto with orderly]
  end.

Ltac orderly := repeat orderly_step.

Lemma orderly_initialize_tem : orderly initialize_tem.
Proof. unfold initialize_tem. orderly. Qed.

Lemma orderly_get_stage_position (r : read_result) (d : Q) :
  orderly (get_stage_position r d).
Proof. unfold get_stage_position, Stage3_GetPos. orderly. Qed.

Lemma orderly_setup_csv_file : orderly setup_csv_file.
Proof. unfold setup_csv_file, write. orderly. Qed.

Lemma orderly_log_position (d : position) (w : option exception) (t : Q) :
  orderly (log_position d w t).
Proof. unfold log_position, write. orderly. Qed.

Lemma orderly_time_sleep (d : pyfloat) (n : nat) : orderly (time_sleep d n).
Proof. unfold time_sleep. orderly. Qed.

Lemma orderly_cleanup : orderly cleanup.
Proof. unfold cleanup, close_file, call_tem. orderly. Qed.

#[local] Hint Resolve orderly_initialize_tem orderly_get_stage_position
  orderly_setup_csv_file orderly_log_position orderly_time_sleep
  orderly_cleanup : orderly.

Lemma orderly_iteration (t : tick) (n : nat) (start : Q) :
  orderly (iteration t n start).
Proof. unfold iteration. orderly. Qed.

Lemma orderly_loop (ts : list tick) (n : nat) (start : Q) :
  orderly (loop ts n start).
Proof.
  revert n. induction ts as [|t ts IH]; intros n; cbn [loop]; orderly.
  apply orderly_iteration.
Qed.

Lemma orderly_run (sc : script) : orderly (run sc).
Proof. unfold run. orderly. apply orderly_loop. Qed.

(** *** The scripts *)

Section Sessions.

Variable float : string -> option pyfloat.
Variable Path : string -> path.
Variable strip lower : string -> string.

Lemma emits_show_configuration (out : string) (ival : pyfloat) :
  emits quiet_event (show_configuration Path out ival).
Proof. unfold show_configuration. orderly. Qed.

Lemma emits_menu_within (n : nat) (answers : list string) (out : string)
    (ival : pyfloat) :
  (length answers <= n)%nat ->
  emits quiet_event (menu float Path strip answers out ival).
Proof.
  revert answers out ival.
  induction n as [|n IH]; intros answers out ival Hn;
    destruct answers as [|line rest]; cbn [menu];
    try (cbn in Hn; lia);
    try (apply emits_bind; [apply emits_show_configuration|intros _];
         apply emits_raise).
  cbn [length] in Hn.
  apply emits_bind; [apply emits_show_configuration|intros _].
  apply emits_bind; [apply emits_modify; reflexivity|intros _].
  destruct (strip line =? "1")%string; [apply emits_ret|].
  destruct (strip line =? "2")%string.
  { destruct rest as [|line' rest']; [apply emits_raise|].
    cbn [length] in Hn. orderly. apply IH. lia. }
  destruct (strip line =? "3")%string.
  { destruct rest as [|line' rest']; [apply emits_raise|].
    cbn [length] in Hn. orderly; apply IH; lia. }
  destruct (strip line =? "4")%string; orderly.
  apply IH. lia.
Qed.

Lemma emits_menu (answers : list string) (out : string) (ival : pyfloat) :
  emits quiet_event (menu float Path strip answers out ival).
Proof. apply (emits_menu_within (length answers)). lia. Qed.

Lemma emits_get_user_parameters (argv : list string) :
  emits quiet_event (get_user_parameters float Path strip argv).
Proof. unfold get_user_parameters. orderly; apply emits_menu. Qed.

Lemma emits_confirm (answers : list string) :
  emits quiet_event (confirm strip lower answers).
Proof. induction answers as [|line rest IH]; cbn [confirm]; orderly. Qed.

Lemma emits_confirm_operation :
  emits quiet_event (confirm_operation strip lower).
Proof. unfold confirm_operation. orderly. apply emits_confirm. Qed.

Lemma emits_method {A : Type} (l : logger) (c : M session A) :
  orderly c -> emits logger_event (method l c).
Proof.
  intros Hc w. destruct (Hc {| self := l; env := w |}) as (evs & Ht & Hp & _).
  exists evs. unfold method.
  destruct (c {| self := l; env := w |}) as [r s]. split; assumption.
Qed.

Lemma logger_events_flags (evs : list event) :
  Forall (fun e => logger_event e = true) evs ->
  exists k, flag_history evs = replicate k false.
Proof.
  induction 1 as [|e evs He _ (k & IH)]; [exists 0%nat; reflexivity|].
  destruct e as [| | | | | |[]]; try discriminate;
    try (exists k; exact IH).
  exists (S k). cbn. unfold flag_history in IH. rewrite IH. reflexivity.
Qed.

Lemma in_one_session_quiet {A : Type} (c : M world A) :
  emits quiet_event c -> in_one_session c.
Proof.
  intros Hc w. destruct (Hc w) as (evs & Ht & Hp). exists evs.
  split; [exact Ht|]. left. apply quiet_no_flag. exact Hp.
Qed.

Lemma in_one_session_bind {A B : Type} (c : M world A) (k : A -> M world B) :
  emits quiet_event c -> (forall a, in_one_session (k a)) ->
  in_one_session (bind c k).
Proof.
  intros Hc Hk w. destruct (Hc w) as (evs & Ht & Hp). unfold bind.
  destruct (c w) as [[a|e|] w1]; cbn [snd] in Ht |- *;
    try (exists evs; split; [exact Ht|left; apply quiet_no_flag; exact Hp]).
  destruct (Hk a w1) as (evs' & Ht' & Hp').
  exists (evs ++ evs'). rewrite Ht', Ht, app_assoc. split; [reflexivity|].
  unfold flag_history in *. rewrite omap_app.
  fold (flag_history evs). rewrite (quiet_no_flag _ Hp). exact Hp'.
Qed.

Lemma in_one_session_init {B : Type} (out : string) (ival : pyfloat)
    (k : logger -> M world B) :
  (forall l, emits logger_event (k l)) ->
  in_one_session (bind (__init__ Path out ival) k).
Proof.
  intros Hk w. unfold bind, __init__ at 1. cbn.
  match goal with
  | |- context [k ?l ?w1] => destruct (Hk l w1) as (evs & Ht & Hp)
  end.
  exists (EvSetRunning true :: evs). split.
  - rewrite Ht. cbn. rewrite <- app_assoc. reflexivity.
  - right. destruct (logger_events_flags _ Hp) as (n & Hn). exists n.
    cbn. unfold flag_history in Hn. rewrite Hn. reflexivity.
Qed.

Lemma in_one_session_main (argv : list string) (sc : script) :
  in_one_session (main float Path strip lower argv sc).
Proof.
  unfold main.
  apply in_one_session_bind; [orderly|intros _].
  apply in_one_session_bind; [apply emits_get_user_parameters|intros r].
  destruct r as [[out ival]|];
    [|apply in_one_session_quiet; apply emits_raise].
  apply in_one_session_bind; [apply emits_confirm_operation|intros ok].
  destruct ok; cbn [negb];
    [|apply in_one_session_quiet; unfold sys_exit; orderly].
  apply in_one_session_bind; [orderly|intros _].
  apply in_one_session_init. intros l.
  apply emits_bind; [apply emits_method, orderly_run|intros success].
  destruct success; unfold sys_exit; orderly.
Qed.

End Sessions.

Lemma falls_replicate_false (k : nat) :
  falls (replicate k false) = 0%nat /\ rises (replicate k false) = 0%nat.
Proof.
  induction k as [|k [IH1 IH2]]; [split; reflexivity|].
  change (replicate (S k) false) with (false :: replicate k false).
  cbn [falls rises]. rewrite IH1, IH2. destruct k; split; reflexivity.
Qed.

Lemma one_session_falls (h : list bool) :
  one_session h -> (falls h <= 1)%nat /\ rises h = 0%nat.
Proof.
  intros [->|(k & ->)]; [split; [cbn; lia|reflexivity]|].
  destruct (falls_replicate_false k) as [H1 H2].
  cbn [falls rises]. rewrite H1, H2. destruct k; split; cbn; lia.
Qed.

Lemma logger_events_no_disconnect (evs : list event) :
  Forall (fun e => logger_event e = true) evs ->
  ~ In (EvTem Disconnect) evs.
Proof.
  intros H Hin. rewrite Forall_forall in H.
  specialize (H _ (proj2 (list_elem_of_In _ _) Hin)). discriminate.
Qed.

(** ** Interrupts and the flag *)

(** C7, as the code has it.  The handler prints a line, stores [False]
    to [running] and returns: it closes nothing and calls no method of
    the driver.  A second interrupt leaves the logger as the first left
    it.  In every session, from the start of [main] to its end, [True] is
    stored once at most, by the constructor, and nothing but [False]
    after it: the flag goes from true to false at most once, and never
    from false to true. *)
Theorem running_flag_falls_at_most_once
    (float : string -> option pyfloat) (Path : string -> path)
    (strip lower : string -> string)
    (argv : list string) (sc : script) (w : world) (s : session) :
  (exists s1 s2,
     signal_handler SIGINT s = (Ret tt, s1) /\
     undisturbed s s1 /\
     running (self s1) = false /\
     new_events (env s) (env s1) =
       [EvPrint (MsgReceivedSignal SIGINT); EvSetRunning false] /\
     signal_handler SIGINT s1 = (Ret tt, s2) /\
     self s2 = self s1 /\
     undisturbed s1 s2) /\
  exists evs,
    trace (main float Path strip lower argv sc w).2 = trace w ++ evs /\
    (falls (flag_history evs) <= 1)%nat /\
    rises (flag_history evs) = 0%nat.
Proof.
  split.
  - eexists _, _. rewrite !signal_handler_eq.
    split; [reflexivity|]. split; [split; reflexivity|].
    split; [reflexivity|]. split.
    { unfold new_events. cbn [env trace with_trace].
      apply drop_app_length. }
    split; [reflexivity|]. split; [reflexivity|split; reflexivity].
  - destruct (in_one_session_main float Path strip lower argv sc w) as (evs & Ht & Hs).
    exists evs. split; [exact Ht|]. apply one_session_falls. exact Hs.
Qed.

(** Two sessions in which the flag never goes from true to false: the
    microscope cannot be reached and [run] returns before its loop; and
    [time.sleep] rejects the interval, which ends the loop with the flag
    still set. *)
Lemma flag_stays_set_without_interrupt :
  let argv (i : string) := ["stage_logger.py"; "out.csv"; i] in
  let r1 := main float_literal path_of_string str_strip str_lower (argv "0.1")
              {| early_sigint := 0; ticks := [] |}
              (world0 lab_unreachable ["1"; "y"]) in
  let r2 := main float_literal path_of_string str_strip str_lower (argv "-1")
              {| early_sigint := 0; ticks := [good_tick None 0] |}
              (world0 lab ["1"; "y"]) in
  (exit_status r1.1 = Some 1%Z /\
   flag_history (trace r1.2) = [true] /\
   falls (flag_history (trace r1.2)) = 0%nat) /\
  (exit_status r2.1 = Some 0%Z /\
   flag_history (trace r2.2) = [true] /\
   falls (flag_history (trace r2.2)) = 0%nat).
Proof. vm_compute. repeat split; reflexivity. Qed.

(** ** Teardown *)

(** C1 does not hold of the code.  For a driver that has a [disconnect]
    method, [cleanup] closes the log file and then calls the driver's
    [connect]: no run calls [disconnect], whatever the world does.  And
    when closing the file raises, the exception leaves [cleanup] before
    the driver is reached at all. *)
Theorem cleanup_calls_connect_not_disconnect (sc : script) (s : session) :
  ~ In (EvTem Disconnect) (new_events (env s) (env (run sc s).2)) /\
  let stop_after_one := {| early_sigint := 0; ticks := [good_tick None 1] |} in
  let fresh (h : platform) :=
    {| self := new_logger ["out.csv"] (Fin (1 # 10)); env := world0 h [] |} in
  let r := run stop_after_one (fresh lab) in
  let r' := run stop_after_one (fresh lab_disk_full) in
  (has_disconnect (TEM3 lab) = true /\
   r.1 = Ret true /\
   actions (trace (env r.2)) =
     [EvOpen ["out.csv"]; EvWrite ["out.csv"] header; EvTem GetPos;
      EvWrite ["out.csv"] [CTime (1 # 20); CNum 1; CNum 2; CNum 3; CNum 4; CNum 5];
      EvSleep (Fin (1 # 10)); EvSetRunning false;
      EvFileClose ["out.csv"]; EvTem Connect]) /\
  (r'.1 = Raise OSError /\
   tem_calls (trace (env r'.2)) = [GetPos]).
Proof.
  split.
  - destruct (orderly_run sc s) as (evs & Ht & Hp & _).
    rewrite (new_events_app _ _ _ Ht).
    apply logger_events_no_disconnect. exact Hp.
  - vm_compute. repeat split; reflexivity.
Qed.

(** * Further properties *)

(** ** beam_blank.py: the button and the hotkey *)

(** X1.  The first toggle after the constructor sends the beam state that
    [GetBeamBlank] has just reported, and leaves the text of the button
    as the constructor set it. *)
Theorem first_toggle_resends_state (v : pyvalue) :
  eq_True v = truthy v ->
  let a := BeamControllerApp_init v in
  SetBeamBlank_calls (toggle_beam a) = [if truthy v then 1%Z else 0%Z] /\
  btn (toggle_beam a) = btn a.
Proof.
  intros H. cbn. unfold toggle_beam. cbn. rewrite H.
  destruct (truthy v); split; reflexivity.
Qed.

Lemma first_toggle_resends_state_witness :
  SetBeamBlank_calls (toggle_beam (BeamControllerApp_init (PyInt 1))) = [1%Z] /\
  btn (toggle_beam (BeamControllerApp_init (PyInt 1))) =
    btn (BeamControllerApp_init (PyInt 1)).
Proof. apply (first_toggle_resends_state (PyInt 1)). reflexivity. Defined.

Lemma toggles_alternate_from (n : nat) (a : BeamControllerApp) :
  SetBeamBlank_calls (Nat.iter n toggle_beam a) =
    SetBeamBlank_calls a ++ alternate (truthy (is_blank a)) n /\
  truthy (is_blank (Nat.iter n toggle_beam a)) =
    Nat.iter n negb (truthy (is_blank a)).
Proof.
  revert a. induction n as [|n IH]; intros a.
  - cbn. rewrite app_nil_r. split; reflexivity.
  - rewrite !Nat.iter_succ_r. destruct (IH (toggle_beam a)) as [H1 H2].
    rewrite H1, H2. unfold toggle_beam.
    destruct (truthy (is_blank a)); cbn; rewrite <- app_assoc; split; reflexivity.
Qed.

(** X2.  However many times the beam is toggled, the values sent to
    [SetBeamBlank] alternate, starting with 1 when [is_blank] was true,
    and after each toggle the button reads [Unblank Beam] exactly when
    the value just sent was 1. *)
Theorem toggles_alternate (n : nat) (a : BeamControllerApp) :
  let a' := Nat.iter (S n) toggle_beam a in
  SetBeamBlank_calls a' =
    SetBeamBlank_calls a ++ alternate (truthy (is_blank a)) (S n) /\
  (btn a' = unblank_button <-> last (SetBeamBlank_calls a') = Some 1%Z) /\
  (btn a' = blank_button <-> last (SetBeamBlank_calls a') = Some 0%Z).
Proof.
  cbn zeta. split; [apply toggles_alternate_from|].
  rewrite Nat.iter_succ. generalize (Nat.iter n toggle_beam a). intros b.
  unfold toggle_beam.
  destruct (truthy (is_blank b)); cbn [btn SetBeamBlank_calls];
    rewrite last_snoc; split; split; (discriminate || reflexivity).
Qed.

Lemma default_last_cons {A : Type} (d x : A) (l : list A) :
  default x (last l) = default d (last (x :: l)).
Proof.
  destruct l as [|k ks]; [reflexivity|].
  change (last (x :: k :: ks)) with (last (k :: ks)).
  destruct (last (k :: ks)) eqn:Hl; [reflexivity|].
  apply last_None in Hl. discriminate.
Qed.

Section Hotkeys.

Variable parses : string -> bool.
Variable strip : string -> string.

Lemma update_hotkey_blank (g : window) :
  strip (hotkey_entry g) = ""%string ->
  update_hotkey parses strip g = (Ret tt, g).
Proof. intros H. unfold update_hotkey, bind, gets. cbn. rewrite H. reflexivity. Qed.

Lemma update_hotkey_name (g : window) :
  strip (hotkey_entry g) <> ""%string ->
  let k := strip (hotkey_entry g) in
  let g' := (update_hotkey parses strip g).2 in
  hotkeys g' = (if parses k then [k] else []) /\
  current_hotkey (controller g') = k /\
  hotkey_entry g' = hotkey_entry g /\
  is_blank (controller g') = is_blank (controller g) /\
  btn (controller g') = btn (controller g) /\
  SetBeamBlank_calls (controller g') = SetBeamBlank_calls (controller g).
Proof.
  intros H. apply String.eqb_neq in H.
  unfold update_hotkey, bind, gets, clear_all_hotkeys, add_hotkey, modify.
  cbn. rewrite H. cbn. destruct (parses (strip (hotkey_entry g))); cbn; auto 10.
Qed.

Lemma set_hotkeys_from (entries : list string) (g : window) :
  hotkeys g =
    (if parses (current_hotkey (controller g))
     then [current_hotkey (controller g)] else []) ->
  let g' := set_hotkeys parses strip entries g in
  let k :=
    default (current_hotkey (controller g)) (last (hotkey_names strip entries)) in
  hotkeys g' = (if parses k then [k] else []) /\
  current_hotkey (controller g') = k /\
  is_blank (controller g') = is_blank (controller g) /\
  btn (controller g') = btn (controller g) /\
  SetBeamBlank_calls (controller g') = SetBeamBlank_calls (controller g).
Proof.
  revert g. induction entries as [|e entries IH]; intros g Hg; cbn zeta.
  - cbn. auto.
  - change (set_hotkeys parses strip (e :: entries) g)
      with (set_hotkeys parses strip entries
              (update_hotkey parses strip (type_hotkey e g)).2).
    unfold hotkey_names. cbn [fmap list_fmap List.filter].
    fold (hotkey_names strip entries).
    destruct (strip e =? "")%string eqn:He; cbn [negb].
    + apply String.eqb_eq in He.
      rewrite update_hotkey_blank by exact He. cbn [snd].
      apply (IH (type_hotkey e g)). exact Hg.
    + apply String.eqb_neq in He.
      destruct (update_hotkey_name (type_hotkey e g) He)
        as (H1 & H2 & _ & H4 & H5 & H6).
      cbn [type_hotkey hotkey_entry controller] in H1, H2, H4, H5, H6.
      destruct (IH (update_hotkey parses strip (type_hotkey e g)).2)
        as (K1 & K2 & K4 & K5 & K6).
      { rewrite H1, H2. reflexivity. }
      rewrite K1, K2, K4, K5, K6, H2, H4, H5, H6.
      rewrite (default_last_cons (current_hotkey (controller g))).
      auto.
Qed.

End Hotkeys.

(** X3.  Whatever the operator enters as hotkeys, and however often, and
    whatever [str.strip] takes for a blank: the hotkey in force is the
    last entry of which [strip] leaves something, stripped ([alt+q] when
    there is none); it is the only hotkey registered, and when [keyboard]
    cannot parse it no hotkey is registered at all; the beam state and
    the button are not touched. *)
Theorem one_hotkey_at_most
    (parses : string -> bool) (strip : string -> string)
    (v : pyvalue) (entries : list string) :
  let g := set_hotkeys parses strip entries (started parses v) in
  let k := default "alt+q"%string (last (hotkey_names strip entries)) in
  current_hotkey (controller g) = k /\
  hotkeys g = (if parses k then [k] else []) /\
  is_blank (controller g) = v /\
  btn (controller g) = btn (BeamControllerApp_init v) /\
  SetBeamBlank_calls (controller g) = [].
Proof.
  assert (Hs : let g0 := started parses v in
               hotkeys g0 = (if parses "alt+q"%string then ["alt+q"%string] else [])
               /\ controller g0 = BeamControllerApp_init v).
  { unfold started, hotkey_listener, bind, gets, add_hotkey, modify, exhausted.
    cbn. destruct (parses "alt+q"%string); cbn; auto. }
  destruct Hs as [Hs1 Hs2].
  destruct (set_hotkeys_from parses strip entries (started parses v))
    as (H1 & H2 & H3 & H4 & H5).
  { rewrite Hs1, Hs2. reflexivity. }
  rewrite Hs2 in H1, H2, H3, H4, H5. cbn zeta. auto.
Qed.

(** ** The configurator, from a positive interval *)

Section Positive.

Variable float : string -> option pyfloat.
Variable Path : string -> path.
Variable strip : string -> string.

Lemma float_gt0_inv (ival : pyfloat) :
  float_gt0 ival = true -> exists hz, float_inv ival = inr hz.
Proof.
  destruct ival as [q|negative|]; cbn; [|eauto|discriminate].
  intros H. destruct (Qeq_bool q 0) eqn:E; eauto.
  apply Qeq_bool_iff in E. apply negb_true_iff in H.
  assert (Qle_bool q 0 = true) by (apply Qle_bool_iff; rewrite E; apply Qle_refl).
  congruence.
Qed.

(** The display of a non-zero interval returns. *)
Lemma show_configuration_returns (out : string) (ival hz : pyfloat) (w : world) :
  float_inv ival = inr hz ->
  exists w', show_configuration Path out ival w = (Ret tt, w') /\
             stdin w' = stdin w.
Proof.
  intros H. unfold show_configuration.
  do 3 (erewrite bind_ret_eq by reflexivity; cbn beta).
  rewrite H. erewrite bind_ret_eq by reflexivity. cbn beta.
  do 3 (erewrite bind_ret_eq by reflexivity; cbn beta).
  match goal with
  | |- context [bind (try_except ?b ?h) ?k ?w0] =>
      assert (Ht : exists w1, try_except b h w0 = (Ret tt, w1)
                              /\ stdin w1 = stdin w)
  end.
  { unfold try_except, fs_call, bind, gets, of_sum, modify, print, emit, raise, ret.
    cbn [fs with_trace stdin].
    destruct (mkdir_parents _ _) as [e|f1]; cbn; [eauto|].
    destruct (touch _ f1) as [e|f2]; cbn; [eauto|].
    destruct (unlink _ f2) as [e|f3]; cbn; eauto. }
  destruct Ht as (w1 & Ht & Hs).
  erewrite bind_ret_eq by exact Ht. cbn beta.
  eexists. split; [reflexivity|]. exact Hs.
Qed.

Lemma menu_positive (answers : list string) :
  forall (out : string) (ival : pyfloat) (w : world),
  float_gt0 ival = true ->
  positive_or_eof (menu float Path strip answers out ival w).1.
Proof.
  induction answers as [answers IH] using (induction_ltof1 _ (@length string)).
  unfold ltof in IH. intros out ival w Hpos.
  destruct (float_gt0_inv _ Hpos) as (hz & Hhz).
  destruct (show_configuration_returns out ival hz w Hhz) as (w1 & Hshow & _).
  destruct answers as [|line rest]; cbn [menu];
    erewrite bind_ret_eq by exact Hshow; cbn beta; [reflexivity|].
  erewrite bind_ret_eq by reflexivity. cbn beta.
  destruct (strip line =? "1")%string; [exact Hpos|].
  destruct (strip line =? "2")%string.
  { destruct rest as [|line' rest']; [reflexivity|].
    do 2 (erewrite bind_ret_eq by reflexivity; cbn beta).
    apply IH; [cbn; lia|exact Hpos]. }
  destruct (strip line =? "3")%string.
  { destruct rest as [|line' rest']; [reflexivity|].
    erewrite bind_ret_eq by reflexivity. cbn beta.
    destruct (float (strip line')) as [v|].
    - destruct (float_gt0 v) eqn:Hv.
      + do 2 (erewrite bind_ret_eq by reflexivity; cbn beta).
        apply IH; [cbn; lia|exact Hv].
      + do 2 (erewrite bind_ret_eq by reflexivity; cbn beta).
        apply IH; [cbn; lia|exact Hpos].
    - do 2 (erewrite bind_ret_eq by reflexivity; cbn beta).
      apply IH; [cbn; lia|exact Hpos]. }
  destruct (strip line =? "4")%string.
  { erewrite bind_ret_eq by reflexivity. reflexivity. }
  do 2 (erewrite bind_ret_eq by reflexivity; cbn beta).
  apply IH; [cbn; lia|exact Hpos].
Qed.

(** X4.  When the command line gives no interval, one that [float] rejects,
    or a positive one, then whatever the operator enters at the menu: the
    call of [get_user_parameters] ends; the settings it returns, when it
    returns settings, have a positive interval (choice 3 keeps the
    interval it has when the number entered is not positive or not a
    number); and the division [1/interval] of the display never raises
    [ZeroDivisionError]. *)
Theorem configured_interval_is_positive (argv : list string) (w : world) :
  match argv !! 2%nat with
  | Some a =>
      match float a with
      | Some v => float_gt0 v = true
      | None => True
      end
  | None => True
  end ->
  returns_positive (get_user_parameters float Path strip argv w).1.
Proof.
  intros H.
  assert (Hp : positive_or_eof (get_user_parameters float Path strip argv w).1).
  { unfold get_user_parameters.
    erewrite bind_ret_eq by reflexivity. cbn beta zeta.
    assert (Hd : float_gt0 default_interval = true) by reflexivity.
    destruct (argv !! 2%nat) as [a|]; [destruct (float a) as [v|]|];
      repeat (erewrite bind_ret_eq by reflexivity; cbn beta);
      apply menu_positive; assumption. }
  destruct (get_user_parameters float Path strip argv w).1 as [[[o i]|]|e|];
    cbn in Hp |- *; try assumption.
  subst e. discriminate.
Qed.

End Positive.

Lemma configured_interval_is_positive_witness :
  returns_positive
    (get_user_parameters float_literal path_of_string str_strip
       ["stage_logger.py"; "out.csv"; "fast"]
       (world0 lab ["3"; "-5"; "3"; "0"; "3"; "0.5"; "1"])).1.
Proof.
  apply (configured_interval_is_positive float_literal path_of_string str_strip
           ["stage_logger.py"; "out.csv"; "fast"]).
  vm_compute. exact I.
Defined.

(** ** The confirmation *)

Section Confirmation.

Variable strip lower : string -> string.

Lemma confirm_answered (bad rest : list string) (a : string) (b : bool) :
  Forall (fun l => yes_no strip lower l = None) bad ->
  yes_no strip lower a = Some b ->
  forall w, exists w',
    confirm strip lower (bad ++ a :: rest) w = (Ret b, w') /\
    stdin w' = rest /\
    fs w' = fs w /\
    trace w' = trace w ++ replicate (length bad) (EvPrint MsgPleaseYN).
Proof.
  intros Hbad Ha. unfold yes_no in Ha. cbn zeta in Ha.
  induction Hbad as [|l bad Hl _ IH]; intros w; cbn [app confirm].
  - erewrite bind_ret_eq by reflexivity. cbn beta zeta.
    destruct ((strip (lower a) =? "y")%string || (strip (lower a) =? "yes")%string).
    + injection Ha as <-. eexists. split; [reflexivity|].
      cbn. rewrite app_nil_r. auto.
    + destruct ((strip (lower a) =? "n")%string || (strip (lower a) =? "no")%string);
        [|discriminate].
      injection Ha as <-. eexists. split; [reflexivity|].
      cbn. rewrite app_nil_r. auto.
  - unfold yes_no in Hl. cbn zeta in Hl.
    erewrite bind_ret_eq by reflexivity. cbn beta zeta.
    destruct ((strip (lower l) =? "y")%string || (strip (lower l) =? "yes")%string);
      [discriminate|].
    destruct ((strip (lower l) =? "n")%string || (strip (lower l) =? "no")%string);
      [discriminate|].
    erewrite bind_ret_eq by reflexivity. cbn beta.
    match goal with
    | |- context [confirm _ _ _ ?w1] => destruct (IH w1) as (w' & H1 & H2 & H3 & H4)
    end.
    exists w'. split; [exact H1|]. split; [exact H2|]. split; [exact H3|].
    rewrite H4. cbn. rewrite <- app_assoc. reflexivity.
Qed.

(** X5.  [confirm_operation] asks again after every line that is not [y],
    [yes], [n] or [no] once [str.lower] and [str.strip] have been applied
    to it, whatever these two functions are; it answers the first line
    that is one of them, and reads no further: the lines after it are
    left on the input. *)
Theorem confirm_operation_asks_until_answered
    (bad rest : list string) (a : string) (b : bool) (w : world) :
  Forall (fun l => yes_no strip lower l = None) bad ->
  yes_no strip lower a = Some b ->
  stdin w = bad ++ a :: rest ->
  exists w',
    confirm_operation strip lower w = (Ret b, w') /\
    stdin w' = rest /\
    fs w' = fs w /\
    new_events w w' =
      EvPrint MsgInstructions :: replicate (length bad) (EvPrint MsgPleaseYN).
Proof.
  intros Hbad Ha Hin. unfold confirm_operation.
  erewrite bind_ret_eq by reflexivity. cbn beta.
  erewrite bind_ret_eq by reflexivity. cbn beta.
  cbn [stdin with_trace]. rewrite Hin.
  match goal with
  | |- context [confirm _ _ _ ?w1] =>
      destruct (confirm_answered bad rest a b Hbad Ha w1)
        as (w' & H1 & H2 & H3 & H4)
  end.
  exists w'. split; [exact H1|]. split; [exact H2|]. split; [exact H3|].
  apply new_events_app. rewrite H4. cbn. rewrite <- app_assoc. reflexivity.
Qed.

End Confirmation.

Lemma confirm_operation_asks_until_answered_witness :
  exists w',
    confirm_operation str_strip str_lower
      (world0 lab ["maybe"; ""; "  YES "; "later"]) = (Ret true, w') /\
    stdin w' = ["later"] /\
    fs w' = fs (world0 lab ["maybe"; ""; "  YES "; "later"]) /\
    new_events (world0 lab ["maybe"; ""; "  YES "; "later"]) w' =
      [EvPrint MsgInstructions; EvPrint MsgPleaseYN; EvPrint MsgPleaseYN].
Proof.
  apply (confirm_operation_asks_until_answered str_strip str_lower
           ["maybe"; ""] ["later"]
           "  YES " true (world0 lab ["maybe"; ""; "  YES "; "later"]));
    [repeat constructor|reflexivity|reflexivity].
Defined.

(** ** The probe of the output directory *)

Section Probe.

Variable Path : string -> path.

(** X6.  When the output directory can be made and already holds a file
    named [test_write.tmp], showing the configuration deletes that file:
    the probe touches it, which leaves it as it is, then unlinks it, and
    reports the directory writable. *)
Theorem probe_deletes_test_write_tmp
    (out : string) (ival hz : pyfloat) (w : world) (f1 : filesystem)
    (rows : list row) :
  let test_file := parent (Path out) ++ ["test_write.tmp"] in
  float_inv ival = inr hz ->
  mkdir_parents (parent (Path out)) (fs w) = inr f1 ->
  fs w !! test_file = Some (File rows) ->
  let r := show_configuration Path out ival w in
  r.1 = Ret tt /\
  fs r.2 = delete test_file f1 /\
  fs r.2 !! test_file = None /\
  In (EvPrint MsgWritable) (new_events w r.2).
Proof.
  intros test_file Hhz Hmk Hfile.
  assert (Hf1 : f1 !! test_file = Some (File rows)).
  { eapply mkdir_from_keeps; [exact Hmk|exact Hfile]. }
  assert (Hne : test_file <> []) by (unfold test_file; destruct (parent (Path out)); discriminate).
  assert (Hnode : node_at f1 test_file = Some (File rows)).
  { unfold node_at. destruct test_file; [congruence|exact Hf1]. }
  unfold show_configuration.
  do 3 (erewrite bind_ret_eq by reflexivity; cbn beta).
  rewrite Hhz. erewrite bind_ret_eq by reflexivity. cbn beta.
  do 3 (erewrite bind_ret_eq by reflexivity; cbn beta).
  unfold try_except, fs_call, bind, gets, of_sum, modify, print, emit, raise, ret.
  cbn [fs with_trace with_fs stdin trace fst snd].
  rewrite Hmk. cbn [fs with_fs]. fold test_file.
  unfold touch. rewrite Hnode. cbn [fs with_fs].
  unfold unlink. rewrite Hnode. unfold modify.
  cbn [fs with_fs with_trace fst snd trace].
  split; [reflexivity|]. split; [reflexivity|].
  split; [apply lookup_delete_eq|].
  unfold new_events. cbn. rewrite <- !app_assoc, drop_app_length.
  cbn. auto 10.
Qed.

End Probe.

Lemma probe_deletes_test_write_tmp_witness :
  let w := with_fs {[ ["data"] := Dir;
                      ["data"; "test_write.tmp"] := File [[CName "kept"]] ]}
             (world0 lab []) in
  let r := show_configuration path_of_string "data/out.csv" (Fin (1 # 10)) w in
  r.1 = Ret tt /\
  fs r.2 = delete ["data"; "test_write.tmp"] (fs w) /\
  fs r.2 !! ["data"; "test_write.tmp"] = None /\
  In (EvPrint MsgWritable) (new_events w r.2).
Proof.
  intros w.
  apply (probe_deletes_test_write_tmp path_of_string "data/out.csv"
           (Fin (1 # 10)) (Fin (/ (1 # 10))) w (fs w) [[CName "kept"]]);
    [reflexivity| |reflexivity].
  vm_compute. reflexivity.
Defined.

(** ** The loop as a whole *)



Lemma loop_stopped (ts : list tick) (n : nat) (start : Q) (s : session) :
  running (self s) = false -> loop ts n start s = (Ret n, s).
Proof.
  intros H. destruct ts; cbn [loop]; erewrite bind_ret_eq by reflexivity;
    cbn beta; rewrite H; reflexivity.
Qed.



(** ** An interval that [time.sleep] rejects *)

Lemma iteration_sleep_raises
    (t : tick) (n : nat) (start : Q) (s : session)
    (x y z a b : Q) (more : list Q) (e : exception) :
  ready s ->
  reading t = ReadOk (x :: y :: z :: a :: b :: more) ->
  write_error t = None ->
  sleep_error (interval (self s)) = Some e ->
  let d := {| timestamp := (clock (env s) + read_time t)%Q; x_position := x;
              y_position := y; z_position := z; alpha_tilt := a;
              beta_tilt := b |} in
  let p := output_file (self s) in
  exists s' logged,
    iteration t n start s = (Raise e, s') /\
    fs (env s') =
      append_rows p (unflushed (env s) ++ [row_of d]) (fs (env s)) /\
    unflushed (env s') = [] /\
    trace (env s') =
      trace (env s) ++ signal_events (sigint_before_read t) ++
        [EvTem GetPos] ++ signal_events (sigint_in_read t) ++
        [EvWrite p (row_of d)] ++ logged ++ [EvSleep (interval (self s))] /\
    Forall (fun ev => is_print ev = true) logged.
Proof.
  intros Hready Hxs Hw Hs d p.
  destruct (deliver_spec (sigint_before_read t) s)
    as (s1 & Hd1 & Hu1 & Ht1 & Hr1 & Hc1).
  pose proof (ready_undisturbed _ _ Hready Hu1) as (Htem & Hwr & Hfile).
  pose proof (undisturbed_fields _ _ Hu1)
    as (Ho1 & Hi1 & _ & _ & _ & Hh1 & Hfs1 & _ & Hb1).
  unfold d, p. clear d p. rewrite <- Hc1, <- Ho1.
  set (d := {| timestamp := (clock (env s1) + read_time t)%Q;
               x_position := x; y_position := y; z_position := z;
               alpha_tilt := a; beta_tilt := b |}).
  set (p := output_file (self s1)).
  destruct (csv_writer (self s1)) as [names|] eqn:Hnames; [|congruence].
  destruct (deliver_spec (sigint_in_read t)
              {| self := self s1;
                 env := with_clock (clock (env s1) + read_time t)%Q
                          (with_trace (trace (env s1) ++ [EvTem GetPos])
                             (env s1)) |})
    as (s2 & Hd2 & Hu2 & Ht2 & Hr2 & Hc2).
  pose proof (undisturbed_fields _ _ Hu2)
    as (Ho2 & Hi2 & _ & Hw2 & Hf2 & Hh2 & Hfs2 & _ & Hb2).
  cbn [self env trace with_trace with_clock clock fs host with_fs unflushed]
    in Ho2, Hi2, Hw2, Hf2, Ht2, Hr2, Hc2, Hh2, Hfs2, Hb2.
  set (s3 := {| self := self s2;
                env := with_unflushed []
                         (with_fs
                            (append_rows p (unflushed (env s2) ++ [row_of d])
                               (fs (env s2)))
                            (with_trace
                               (trace (env s2) ++ [EvWrite p (row_of d)])
                               (with_clock (clock (env s2) + write_time t)%Q
                                  (env s2)))) |}).
  destruct (status_report (S n) start s3) as (logged & Hl & Hp).
  subst s3.
  cbn [self env trace with_trace with_clock with_fs with_unflushed] in Hl.
  eexists _, logged. split; [|split; [|split; [|split]]].
  - unfold iteration. rewrite Hxs, Hw.
    erewrite bind_ret_eq by exact Hd1. cbn beta.
    erewrite bind_ret_eq by (apply get_stage_position_ok; exact Htem).
    cbn beta.
    erewrite bind_ret_eq by exact Hd2. cbn beta iota.
    erewrite bind_ret_eq.
    2:{ erewrite bind_ret_eq.
        2:{ eapply log_position_ok; [rewrite Hw2; exact Hnames|].
            rewrite Hf2. exact Hfile. }
        cbn beta iota zeta.
        erewrite bind_ret_eq by exact Hl. reflexivity. }
    cbn beta.
    erewrite bind_ret_eq by reflexivity. cbn beta. cbn [self].
    rewrite Hi2.
    erewrite bind_raise_eq; [reflexivity|].
    apply time_sleep_raises. rewrite Hi1. exact Hs.
  - cbn [env fs with_fs with_trace with_clock with_unflushed].
    rewrite Hfs2, Hb2, Hfs1, Hb1. reflexivity.
  - reflexivity.
  - cbn [env trace with_trace]. rewrite Ht2, Ht1, Hi1, <- !app_assoc.
    reflexivity.
  - exact Hp.
Qed.

(** X8.  With an interval that [time.sleep] rejects (negative, not a number,
    or out of range), the [try] block of [run] still reads and writes one
    sample, which goes to the file after the rows that were still in its
    buffer, if any; the sleep that follows raises, which ends the loop:
    the exception is reported as an unexpected error and the block
    returns normally.  The ticks that remain are never read. *)
Theorem rejected_interval_logs_one_sample
    (t : tick) (ts : list tick) (n : nat) (start : Q) (s : session)
    (e : exception) (old : list row) :
  ready s ->
  running (self s) = true ->
  accepted t ->
  sleep_error (interval (self s)) = Some e ->
  fs (env s) !! output_file (self s) = Some (File old) ->
  exists s' d,
    try_except (do _ <- loop (t :: ts) n start; ret tt)
      (fun e => io (print (MsgUnexpected e))) s = (Ret tt, s') /\
    sample_of (clock (env s) + read_time t) (reading t) = Some d /\
    fs (env s') !! output_file (self s) =
      Some (File (old ++ unflushed (env s) ++ [row_of d])) /\
    tem_calls (new_events (env s) (env s')) = [GetPos] /\
    sleeps (new_events (env s) (env s')) = [interval (self s)] /\
    last (trace (env s')) = Some (EvPrint (MsgUnexpected e)).
Proof.
  intros Hready Hrun [Hr Hw] Hs Hold.
  destruct (read_succeeds _ Hr) as (x & y & z & a & b & more & Hxs).
  destruct (iteration_sleep_raises t n start s x y z a b more e
              Hready Hxs Hw Hs)
    as (s1 & logged & Hit & Hfs & _ & Ht & Hp).
  eexists _, _. split; [|split; [|split; [|split; [|split]]]].
  - unfold try_except. erewrite bind_raise_eq.
    2:{ cbn [loop]. erewrite bind_ret_eq by reflexivity. cbn beta.
        rewrite Hrun. erewrite bind_raise_eq by exact Hit. reflexivity. }
    reflexivity.
  - rewrite Hxs. reflexivity.
  - cbn. rewrite Hfs. unfold append_rows. rewrite Hold. apply lookup_insert_eq.
  - erewrite new_events_app.
    2:{ cbn. rewrite Ht, <- !app_assoc. reflexivity. }
    unfold tem_calls. rewrite !omap_app. cbn.
    assert (H1 : forall k, omap (fun e0 => match e0 with EvTem c => Some c | _ => None end)
                   (signal_events k) = []) by (induction k; auto).
    assert (H2 : omap (fun e0 => match e0 with EvTem c => Some c | _ => None end)
                   logged = []).
    { clear -Hp. induction Hp as [|ev l Hev _ IH]; [reflexivity|].
      destruct ev; try discriminate. exact IH. }
    rewrite !H1, H2. reflexivity.
  - erewrite new_events_app.
    2:{ cbn. rewrite Ht, <- !app_assoc. reflexivity. }
    unfold sleeps. rewrite !omap_app.
    fold (sleeps (signal_events (sigint_before_read t))).
    fold (sleeps (signal_events (sigint_in_read t))). fold (sleeps logged).
    rewrite !sleeps_signal_events, (sleeps_prints _ Hp). reflexivity.
  - cbn. apply last_snoc.
Qed.

Lemma rejected_interval_logs_one_sample_witness :
  let s := {| self := self (logging ["out.csv"] (Fin (-1)) (world0 lab []));
              env := with_fs {[ ["out.csv"] := File [header] ]} (world0 lab []) |} in
  exists s' d,
    try_except (do _ <- loop [good_tick None 0; good_tick None 0] 0 0; ret tt)
      (fun e => io (print (MsgUnexpected e))) s = (Ret tt, s') /\
    sample_of (0 + (1 # 20)) (ReadOk [1; 2; 3; 4; 5]%Q) = Some d /\
    fs (env s') !! ["out.csv"] = Some (File ([header] ++ [row_of d])) /\
    tem_calls (new_events (env s) (env s')) = [GetPos] /\
    sleeps (new_events (env s) (env s')) = [Fin (-1)] /\
    last (trace (env s')) = Some (EvPrint (MsgUnexpected ValueError)).
Proof.
  intros s.
  apply (rejected_interval_logs_one_sample (good_tick None 0) [good_tick None 0]
           0 0 s ValueError [header]); try reflexivity.
  - split; [discriminate|]. split; [discriminate|reflexivity].
  - split; reflexivity.
Defined.

(** ** A log that cannot be opened *)

Lemma initialize_tem_binds (s : session) :
  tem_binding (host (env s)) = None ->
  initialize_tem s =
    (Ret true,
     {| self := set_tem (Some (TEM3 (host (env s)))) (self s);
        env := with_trace (trace (env s) ++ [EvPrint MsgConnected]) (env s) |}).
Proof.
  intros Hb. unfold initialize_tem, try_except.
  erewrite bind_ret_eq by reflexivity. cbn beta. cbn [env].
  rewrite Hb.
  do 2 (erewrite bind_ret_eq by reflexivity; cbn beta).
  destruct s as [l [h f tr i c u]]. reflexivity.
Qed.

Lemma setup_csv_file_fails (s : session) (e : exception) :
  cannot_open (fs (env s)) (output_file (self s)) = Some e ->
  exists f,
    setup_csv_file s =
      (Ret false,
       {| self := self s;
          env := with_trace (trace (env s) ++ [EvPrint (MsgSetupError e)])
                   (with_fs f (env s)) |}) /\
    forall q n, fs (env s) !! q = Some n -> f !! q = Some n.
Proof.
  unfold cannot_open. intros H.
  unfold setup_csv_file, try_except.
  erewrite bind_ret_eq by reflexivity. cbn beta.
  destruct (mkdir_parents (parent (output_file (self s))) (fs (env s)))
    as [e1|f1] eqn:Hmk.
  - injection H as ->. exists (fs (env s)). split; [|auto].
    erewrite bind_raise_eq by (apply io_fs_call_err; exact Hmk).
    destruct s as [l [h f tr i c u]]. reflexivity.
  - destruct (open_append (output_file (self s)) f1) as [e2|f2] eqn:Hop;
      [|discriminate].
    injection H as ->. exists f1. split.
    + erewrite bind_ret_eq by (apply io_fs_call_ok; exact Hmk). cbn beta.
      erewrite bind_ret_eq by reflexivity. cbn beta.
      erewrite bind_raise_eq by (apply io_fs_call_err; exact Hop).
      reflexivity.
    + intros q n Hq. eapply mkdir_from_keeps; [exact Hmk|exact Hq].
Qed.

(** [run] when the driver is bound and the log cannot be opened. *)
Lemma run_without_log
    (sc : script) (s : session) (e : exception) :
  tem_binding (host (env s)) = None ->
  cannot_open (fs (env s)) (output_file (self s)) = Some e ->
  exists s',
    run sc s = (Ret false, s') /\
    tem (self s') = Some (TEM3 (host (env s))) /\
    csv_file (self s') = csv_file (self s) /\
    new_events (env s) (env s') =
      [EvPrint (MsgStarting (output_file (self s)) (interval (self s)))]
        ++ signal_events (early_sigint sc)
        ++ [EvPrint MsgConnected; EvPrint (MsgSetupError e);
            EvPrint MsgSetupFailed] /\
    forall q n, fs (env s) !! q = Some n -> fs (env s') !! q = Some n.
Proof.
  intros Hb He. unfold run.
  do 3 (erewrite bind_ret_eq by reflexivity; cbn beta).
  match goal with
  | |- context [bind (deliver ?n) _ ?s0] =>
      destruct (deliver_spec n s0) as (s1 & Hd & Hs & Ht & _)
  end.
  erewrite bind_ret_eq by exact Hd. cbn beta.
  apply undisturbed_fields in Hs.
  destruct Hs as (Ho & _ & _ & _ & Hf & Hh & Hfs & _).
  cbn [self env host fs with_trace] in Ho, Hf, Hh, Hfs, Ht.
  erewrite bind_ret_eq
    by (apply initialize_tem_binds; rewrite Hh; exact Hb).
  cbn beta iota. cbn [negb].
  match goal with
  | |- context [bind setup_csv_file _ ?s2] =>
      destruct (setup_csv_file_fails s2 e) as (f & Hsetup & Hkeep)
  end.
  { cbn [self env fs with_trace set_tem output_file]. rewrite Ho, Hfs. exact He. }
  erewrite bind_ret_eq by exact Hsetup. cbn beta iota. cbn [negb].
  erewrite bind_ret_eq by reflexivity. cbn beta.
  eexists. split; [reflexivity|]. cbn [self env set_tem tem csv_file fs with_fs with_trace].
  split; [rewrite Hh; reflexivity|]. split; [exact Hf|]. split.
  - apply new_events_app. cbn [trace with_trace with_fs]. rewrite Ht.
    cbn [trace with_trace]. rewrite <- !app_assoc. reflexivity.
  - intros q n Hq. apply Hkeep. cbn [fs with_trace env]. rewrite Hfs. exact Hq.
Qed.

Lemma signal_events_members (n : nat) (ev : event) :
  In ev (signal_events n) ->
  ev = EvPrint (MsgReceivedSignal SIGINT) \/ ev = EvSetRunning false.
Proof.
  induction n as [|n IH]; cbn; [tauto|].
  intros [<-|[<-|H]]; auto.
Qed.

(** X9.  When the log file cannot be opened (a file stands where its
    directory should be, or the path is a directory), [run] reports the
    error and returns [False] straight away: it reads no sample and does
    not call [cleanup], so that no method of the driver it has just
    bound is called.  Nothing that was in the file system is changed. *)
Theorem setup_failure_skips_cleanup
    (sc : script) (s : session) (e : exception) :
  tem_binding (host (env s)) = None ->
  cannot_open (fs (env s)) (output_file (self s)) = Some e ->
  exists s',
    run sc s = (Ret false, s') /\
    tem (self s') = Some (TEM3 (host (env s))) /\
    csv_file (self s') = csv_file (self s) /\
    tem_calls (new_events (env s) (env s')) = [] /\
    In (EvPrint (MsgSetupError e)) (new_events (env s) (env s')) /\
    ~ In (EvPrint MsgCleaningUp) (new_events (env s) (env s')) /\
    forall q n, fs (env s) !! q = Some n -> fs (env s') !! q = Some n.
Proof.
  intros Hb He.
  destruct (run_without_log sc s e Hb He) as (s' & H1 & H2 & H3 & H4 & H5).
  exists s'. split; [exact H1|]. split; [exact H2|]. split; [exact H3|].
  rewrite H4. split; [|split; [|split; [|exact H5]]].
  - unfold tem_calls. rewrite !omap_app. fold (tem_calls (signal_events (early_sigint sc))).
    rewrite tem_calls_signal_events. reflexivity.
  - apply in_or_app. right. apply in_or_app. right. cbn. auto.
  - intros Hin. apply in_app_or in Hin as [[Hin|[]]|Hin]; [discriminate|].
    apply in_app_or in Hin as [Hin|Hin].
    + apply signal_events_members in Hin as [Hin|Hin]; discriminate.
    + cbn in Hin. destruct Hin as [Hin|[Hin|[Hin|[]]]]; discriminate.
Qed.

Lemma setup_failure_skips_cleanup_witness :
  let s := {| self := new_logger ["data"] (Fin (1 # 10));
              env := with_fs {[ ["data"] := Dir ]} (world0 lab []) |} in
  exists s',
    run {| early_sigint := 0; ticks := [good_tick None 1] |} s = (Ret false, s') /\
    tem (self s') = Some TEM3_full /\
    tem_calls (new_events (env s) (env s')) = [].
Proof.
  intros s.
  destruct (setup_failure_skips_cleanup
              {| early_sigint := 0; ticks := [good_tick None 1] |} s OSError
              eq_refl eq_refl)
    as (s' & H1 & H2 & _ & H4 & _).
  exists s'. split; [exact H1|]. split; [exact H2|exact H4].
Defined.

(** ** Every run is a sequence of actions *)

Lemma session_eta (s : session) : {| self := self s; env := env s |} = s.
Proof. destruct s. reflexivity. Qed.

Lemma hoare_pre {S A : Type} (P P' : S -> Prop) (c : M S A) Q :
  (forall s, P s -> P' s) -> hoare P' c Q -> hoare P c Q.
Proof. intros HP Hc s Hs. apply Hc, HP, Hs. Qed.

Lemma hoare_attr {A B : Type} (P : session -> Prop) (f : logger -> A)
    (k : A -> M session B) Q :
  (forall a, hoare (fun s => P s /\ f (self s) = a) (k a) Q) ->
  hoare P (bind (attr f) k) Q.
Proof.
  intros Hk s Hs. unfold bind, attr, gets.
  apply (Hk (f (self s)) s). split; [exact Hs|reflexivity].
Qed.

Section Reach.

Variable s0 : session.

Lemma reaches_weaken {A : Type} (E E' : exn -> Prop) (P : session -> Prop)
    (c : M session A) :
  (forall e, E e -> E' e) ->
  hoare P c (reaches s0 E) -> hoare P c (reaches s0 E').
Proof.
  intros HE Hc s Hs. destruct (Hc s Hs) as [H1 H2]. split; [exact H1|].
  destruct (c s).1; cbn in *; auto.
Qed.

Lemma reaches_bind {A B : Type} (E : exn -> Prop) (P : session -> Prop)
    (c : M session A) (k : A -> M session B) :
  hoare P c (reaches s0 E) ->
  (forall a, hoare (rtc step s0) (k a) (reaches s0 E)) ->
  hoare P (bind c k) (reaches s0 E).
Proof.
  intros Hc Hk s Hs. destruct (Hc s Hs) as [H1 H2]. unfold bind.
  destruct (c s) as [[a|e|] s1]; cbn [fst snd] in *.
  - apply Hk. exact H1.
  - split; assumption.
  - split; [assumption|exact I].
Qed.

Lemma reaches_try_except {A : Type} (E : exn -> Prop) (P : session -> Prop)
    (body : M session A) (handler : exception -> M session A) :
  hoare P body (reaches s0 is_exception) ->
  (forall e, hoare (rtc step s0) (handler e) (reaches s0 E)) ->
  hoare P (try_except body handler) (reaches s0 E).
Proof.
  intros Hc Hk s Hs. destruct (Hc s Hs) as [H1 H2]. unfold try_except.
  destruct (body s) as [[a|[e|code]|] s1]; cbn [fst snd] in *.
  - split; [assumption|exact I].
  - apply Hk. exact H1.
  - destruct H2 as (x & Hx). discriminate.
  - split; [assumption|exact I].
Qed.

Lemma reaches_try_finally {A : Type} (E : exn -> Prop) (P : session -> Prop)
    (body : M session A) (final : M session unit) :
  hoare P body (reaches s0 E) ->
  hoare (rtc step s0) final (reaches s0 E) ->
  hoare P (try_finally body final) (reaches s0 E).
Proof.
  intros Hc Hk s Hs. destruct (Hc s Hs) as [H1 H2]. unfold try_finally.
  destruct (body s) as [[a|e|] s1]; cbn [fst snd] in *;
    try (split; [assumption|exact I]);
    destruct (Hk s1 H1) as [K1 K2];
    destruct (final s1) as [[[]|e'|] s2]; cbn [fst snd] in *;
    split; assumption.
Qed.

Lemma reaches_ret {A : Type} (E : exn -> Prop) (a : A) :
  hoare (rtc step s0) (ret a) (reaches s0 E).
Proof. intros s Hs. split; [exact Hs|exact I]. Qed.

Lemma reaches_exhausted {A : Type} (E : exn -> Prop) :
  hoare (rtc step s0) (exhausted (A := A)) (reaches s0 E).
Proof. intros s Hs. split; [exact Hs|exact I]. Qed.

Lemma reaches_print (E : exn -> Prop) (m : message) :
  hoare (rtc step s0) (io (print m)) (reaches s0 E).
Proof.
  intros s Hs. split; [|exact I].
  eapply rtc_r; [exact Hs|]. apply (step_print s m).
Qed.

Lemma reaches_time_time (E : exn -> Prop) :
  hoare (rtc step s0) (io time_time) (reaches s0 E).
Proof.
  intros s Hs. split; [|exact I]. cbn. rewrite session_eta. exact Hs.
Qed.

Lemma reaches_signal_handler (E : exn -> Prop) :
  hoare (rtc step s0) (signal_handler SIGINT) (reaches s0 E).
Proof.
  intros s Hs. rewrite signal_handler_eq. split; [|exact I].
  eapply rtc_r; [exact Hs|]. apply step_interrupt.
Qed.

Lemma reaches_deliver (E : exn -> Prop) (n : nat) :
  hoare (rtc step s0) (deliver n) (reaches s0 E).
Proof.
  induction n as [|n IH]; [apply reaches_ret|].
  cbn [deliver]. apply reaches_bind; [apply reaches_signal_handler|].
  intros _. exact IH.
Qed.

(** The next action, taken from the state reached so far. *)
Ltac stepping c :=
  lazymatch goal with
  | |- step ?x _ => apply (c x)
  end.

Ltac act H c :=
  lazymatch type of H with
  | rtc step _ ?x =>
      let H' := fresh in
      eassert (H' : step x _)
        by (eapply (c x); first [eassumption | reflexivity]);
      apply (rtc_r _ _ _ H) in H'; clear H; rename H' into H;
      cbn [emitted on_env with_self self env] in H
  end.

Lemma reaches_initialize_tem (E : exn -> Prop) :
  hoare (rtc step s0) initialize_tem (reaches s0 E).
Proof.
  intros [l w] Hs. unfold initialize_tem, try_except, bind, io, gets, store,
    modify, print, emit, raise, ret.
  cbn [fst snd self env host with_self].
  destruct (tem_binding (host w)); cbn [fst snd]; (split; [|exact I]).
  - eapply rtc_r; [exact Hs|]. stepping (fun x => step_print x (MsgConnectFailed e)).
  - eapply rtc_r; [eapply rtc_r; [exact Hs|]|].
    + apply step_bind_driver.
    + stepping (fun x => step_print x MsgConnected).
Qed.

Lemma reaches_get_stage_position (E : exn -> Prop) (r : read_result) (d : Q) :
  hoare (rtc step s0) (get_stage_position r d) (reaches s0 E).
Proof.
  intros [l w] Hs.
  unfold get_stage_position, try_except, Stage3_GetPos, bind, attr, gets.
  cbn [fst snd self env].
  destruct (tem l) as [drv|] eqn:Ht.
  - assert (H1 : rtc step s0
                   (on_env (fun w => with_clock (clock w + d)%Q w)
                      (emitted (EvTem GetPos) {| self := l; env := w |}))).
    { eapply rtc_r; [eapply rtc_r; [exact Hs|]|].
      - apply step_read; cbn; congruence.
      - apply step_wait. }
    destruct r as [xs|].
    + do 5 (destruct xs as [|? xs];
            [split; [|exact I];
             eapply rtc_r; [exact H1|]; stepping (fun x => step_print x (MsgErrorReading IndexError))|]).
      split; [exact H1|exact I].
    + split; [|exact I].
      eapply rtc_r; [exact H1|]. stepping (fun x => step_print x (MsgErrorReading DriverError)).
  - split; [|exact I].
    eapply rtc_r; [exact Hs|]. stepping (fun x => step_print x (MsgErrorReading AttributeError)).
Qed.

Lemma reaches_log_position (E : exn -> Prop) (d : position)
    (w : option exception) (t : Q) :
  hoare (rtc step s0) (log_position d w t) (reaches s0 E).
Proof.
  intros [l v] Hs.
  unfold log_position, write, flush, print, emit, advance, try_except, bind,
    attr, gets, io, modify, raise, ret.
  cbn [fst snd self env].
  destruct (csv_writer l) as [names|] eqn:Hw;
    [destruct (csv_file l) as [h|] eqn:Hf|].
  - destruct (h_closed h) eqn:Hc.
    + split; [|exact I]. eapply rtc_r; [exact Hs|].
      stepping (fun x => step_print x (MsgWriteError ValueError)).
    + assert (H1 : rtc step s0
                     (on_env (fun w => with_clock (clock w + t)%Q w)
                        {| self := l; env := v |})).
      { eapply rtc_r; [exact Hs|]. apply step_wait. }
      assert (H2 : rtc step s0
                     (on_env (fun w => with_unflushed
                                         (unflushed w ++ [row_of d]) w)
                        (emitted (EvWrite (h_path h) (row_of d))
                           (on_env (fun w => with_clock (clock w + t)%Q w)
                              {| self := l; env := v |})))).
      { eapply rtc_r; [exact H1|].
        stepping (fun x => step_write x h (row_of d)); [exact Hf|exact Hc]. }
      destruct w as [e|]; cbn [fst snd self env]; (split; [|exact I]).
      * eapply rtc_r; [exact H2|].
        stepping (fun x => step_print x (MsgWriteError e)).
      * eapply rtc_r; [exact H2|].
        stepping (fun x => step_flush x h). exact Hf.
  - split; [|exact I]. eapply rtc_r; [exact Hs|].
    stepping (fun x => step_print x (MsgWriteError AttributeError)).
  - split; [|exact I]. eapply rtc_r; [exact Hs|].
    stepping (fun x => step_print x (MsgWriteError AttributeError)).
Qed.

Lemma reaches_time_sleep (i : pyfloat) (n : nat) :
  hoare (fun s => rtc step s0 s /\ interval (self s) = i)
    (time_sleep i n) (reaches s0 is_exception).
Proof.
  intros [l w] [Hs Hi]. cbn [self] in Hi. subst i.
  assert (H1 : rtc step s0 (emitted (EvSleep (interval l)) {| self := l; env := w |})).
  { eapply rtc_r; [exact Hs|]. apply (step_sleep {| self := l; env := w |}). }
  unfold time_sleep.
  erewrite bind_ret_eq by reflexivity. cbn beta.
  destruct (sleep_error (interval l)) as [e|] eqn:He.
  - split; [exact H1|]. exists e. reflexivity.
  - destruct (interval l) as [q| |] eqn:Hq; try discriminate.
    erewrite bind_ret_eq by reflexivity. cbn beta.
    apply reaches_deliver.
    eapply rtc_r; [exact H1|]. stepping (fun x => step_wait x q).
Qed.

Lemma reaches_setup_csv_file (E : exn -> Prop) :
  hoare (rtc step s0) setup_csv_file (reaches s0 E).
Proof.
  intros [l w] Hs.
  unfold setup_csv_file, write, fs_call, print, emit, try_except, bind, attr,
    gets, io, of_sum, store, modify, raise, ret.
  cbn [fst snd self env fs with_fs with_self].
  destruct (mkdir_parents (parent (output_file l)) (fs w)) as [e|f1] eqn:Hmk;
    cbn [fst snd self env fs with_fs with_self].
  { split; [|exact I]. eapply rtc_r; [exact Hs|].
    stepping (fun x => step_print x (MsgSetupError e)). }
  assert (H1 : rtc step s0 (on_env (with_fs f1) {| self := l; env := w |})).
  { eapply rtc_r; [exact Hs|]. apply step_mkdir. exact Hmk. }
  destruct (open_append (output_file l) f1) as [e|f2] eqn:Hop;
    cbn [fst snd self env fs with_fs with_self].
  { split; [|exact I]. eapply rtc_r; [exact H1|].
    stepping (fun x => step_print x (MsgSetupError e)). }
  pose proof H1 as H2. cbn [on_env self env] in H2.
  act H2 (fun x => step_open x f2).
  act H2 step_writer.
  destruct (exists_ f1 (output_file l)); cbn [negb fst snd self env];
    (split; [|exact I]).
  - act H2 (fun x => step_print x (MsgAppendingLog (output_file l))). exact H2.
  - act H2 (fun x => step_write x {| h_path := output_file l; h_closed := false |}
                       header).
    act H2 (fun x => step_print x (MsgCreatedLog (output_file l))). exact H2.
Qed.

Lemma reach_host (s : session) :
  rtc step s0 s -> host (env s) = host (env s0).
Proof.
  revert s. apply rtc_ind_r; [reflexivity|].
  intros s1 s2 _ H IH. rewrite <- IH. destruct H; reflexivity.
Qed.

Lemma reaches_close_file (h : handle) :
  hoare (fun s => rtc step s0 s /\ csv_file (self s) = Some h)
    (close_file h) (reaches s0 (is_close_error (host (env s0)))).
Proof.
  intros [l w] [Hs Hf]. cbn [self] in Hf.
  pose proof (reach_host _ Hs) as Hh. cbn [env] in Hh.
  assert (H1 : rtc step s0
                 {| self := set_csv_file
                              (Some {| h_path := h_path h; h_closed := true |})
                              l;
                    env := with_trace (trace w ++ [EvFileClose (h_path h)])
                             w |}).
  { eapply rtc_r; [exact Hs|].
    apply (step_close {| self := l; env := w |} h). exact Hf. }
  unfold close_file, flush, emit, bind, io, gets, store, modify, raise, ret.
  cbn [fst snd self env host with_self with_trace].
  destruct (h_closed h); cbn [fst snd]; [split; [exact H1|exact I]|].
  destruct (close_error (host w)) as [e|] eqn:He; cbn [fst snd self env].
  - split.
    + eapply rtc_r; [exact H1|]. stepping step_drop.
      cbn [env host with_trace]. congruence.
    + exists e. split; [reflexivity|]. rewrite <- Hh. exact He.
  - split; [|exact I]. eapply rtc_r; [exact H1|].
    stepping (fun x => step_flush x {| h_path := h_path h; h_closed := true |}).
    reflexivity.
Qed.

Lemma reaches_teardown (E : exn -> Prop) (d : driver) :
  hoare (fun s => rtc step s0 s /\ tem (self s) = Some d)
    (try_except
       (if has_disconnect d then call_tem Connect (connect_call d)
        else if has_close d then call_tem Close (close_call d)
        else ret tt)
       (fun e => io (print (MsgTemCloseError e))))
    (reaches s0 E).
Proof.
  intros [l w] [Hs Ht]. cbn [self] in Ht.
  unfold try_except, call_tem, print, emit, bind, io, modify, raise, ret.
  destruct (has_disconnect d) eqn:Hd; [|destruct (has_close d) eqn:Hc].
  - assert (Hor : has_disconnect d || has_close d = true)
      by (rewrite Hd; reflexivity).
    act Hs (fun x => step_teardown x d). rewrite Hd in Hs.
    destruct (connect_call d) as [e|]; cbn [fst snd self env];
      (split; [|exact I]); [|exact Hs].
    act Hs (fun x => step_print x (MsgTemCloseError e)). exact Hs.
  - assert (Hor : has_disconnect d || has_close d = true)
      by (rewrite Hd, Hc; reflexivity).
    act Hs (fun x => step_teardown x d). rewrite Hd in Hs.
    destruct (close_call d) as [e|]; cbn [fst snd self env];
      (split; [|exact I]); [|exact Hs].
    act Hs (fun x => step_print x (MsgTemCloseError e)). exact Hs.
  - split; [exact Hs|exact I].
Qed.

Lemma reaches_cleanup :
  hoare (rtc step s0) cleanup (reaches s0 (is_close_error (host (env s0)))).
Proof.
  unfold cleanup.
  apply reaches_bind; [apply reaches_print|intros _].
  apply hoare_attr; intros f. apply hoare_attr; intros p.
  apply reaches_bind.
  { destruct f as [h|].
    - apply reaches_bind; [|intros _; apply reaches_print].
      eapply hoare_pre; [|apply reaches_close_file]. tauto.
    - eapply hoare_pre; [|apply reaches_ret]. tauto. }
  intros _. apply hoare_attr; intros t.
  apply reaches_bind; [|intros _; apply reaches_print].
  destruct t as [d|].
  - apply reaches_teardown.
  - eapply hoare_pre; [|apply reaches_ret]. tauto.
Qed.

Lemma reaches_iteration (t : tick) (n : nat) (start : Q) :
  hoare (rtc step s0) (iteration t n start) (reaches s0 is_exception).
Proof.
  unfold iteration.
  apply reaches_bind; [apply reaches_deliver|intros _].
  apply reaches_bind; [apply reaches_get_stage_position|intros position_data].
  apply reaches_bind; [apply reaches_deliver|intros _].
  apply reaches_bind.
  { destruct position_data as [d|]; [|apply reaches_ret].
    apply reaches_bind; [apply reaches_log_position|intros ok].
    destruct ok; [|apply reaches_ret].
    apply reaches_bind; [|intros _; apply reaches_ret].
    destruct (_ =? 0)%nat; [|apply reaches_ret].
    apply reaches_bind; [apply reaches_time_time|intros now].
    apply reaches_print. }
  intros m. apply hoare_attr. intros i.
  apply reaches_bind; [apply reaches_time_sleep|intros _].
  apply reaches_ret.
Qed.

Lemma reaches_loop (ts : list tick) (n : nat) (start : Q) :
  hoare (rtc step s0) (loop ts n start) (reaches s0 is_exception).
Proof.
  revert n. induction ts as [|t ts IH]; intros n; cbn [loop];
    apply hoare_attr; intros r; (destruct r; [|eapply hoare_pre; [|apply reaches_ret]; tauto]).
  - eapply hoare_pre; [|apply reaches_exhausted]. tauto.
  - apply reaches_bind; [|intros m; apply IH].
    eapply hoare_pre; [|apply reaches_iteration]. tauto.
Qed.

Lemma reaches_run (sc : script) :
  hoare (rtc step s0) (run sc) (reaches s0 (is_close_error (host (env s0)))).
Proof.
  unfold run.
  apply hoare_attr; intros p. apply hoare_attr; intros i.
  eapply hoare_pre; [intros s Hs; exact (proj1 (proj1 Hs))|].
  apply reaches_bind; [apply reaches_print|intros _].
  apply reaches_bind; [apply reaches_deliver|intros _].
  apply reaches_bind; [apply reaches_initialize_tem|intros ok].
  destruct ok; cbn [negb].
  2:{ apply reaches_bind; [apply reaches_print|intros _]. apply reaches_ret. }
  apply reaches_bind; [apply reaches_setup_csv_file|intros ok].
  destruct ok; cbn [negb].
  2:{ apply reaches_bind; [apply reaches_print|intros _]. apply reaches_ret. }
  apply reaches_bind; [apply reaches_time_time|intros start_time].
  apply reaches_bind; [|intros _; apply reaches_ret].
  apply reaches_try_finally; [|apply reaches_cleanup].
  apply reaches_try_except.
  - apply reaches_bind; [apply reaches_loop|intros _]. apply reaches_ret.
  - intros e. apply reaches_print.
Qed.

End Reach.

(** ** What a run does and never does *)

(** X10.  [run] lets no exception out but the one of a [close()] of the log
    file that fails in [cleanup]: whatever the stage reads, the writes,
    the sleeps and the driver's methods raise is caught on the way. *)
Theorem run_raises_only_a_close_error (sc : script) (s : session) :
  match (run sc s).1 with
  | Raise e => exists x, e = Exception x /\ close_error (host (env s)) = Some x
  | _ => True
  end.
Proof.
  destruct (reaches_run s sc s (rtc_refl _ _)) as [_ H].
  destruct (run sc s).1; exact H || exact I.
Qed.







(** ** A stop request ends the loop within the iteration *)

Lemma reads_app (a b : list event) : reads (a ++ b) = (reads a + reads b)%nat.
Proof. unfold reads. rewrite List.filter_app, length_app. reflexivity. Qed.

Lemma reads_none (evs : list event) :
  Forall (fun e => not_read e = true) evs -> reads evs = 0%nat.
Proof.
  induction 1 as [|e evs He _ IH]; [reflexivity|].
  unfold reads in *. cbn [List.filter].
  unfold not_read in He. apply negb_true_iff in He. rewrite He. exact IH.
Qed.

Lemma reads_after (a c : list event) (e : event) :
  (reads c <= reads (a ++ e :: c))%nat.
Proof.
  rewrite reads_app. change (e :: c) with ([e] ++ c). rewrite reads_app. lia.
Qed.

Lemma last_replicate_false (k : nat) :
  last (replicate (S k) false) = Some false.
Proof.
  induction k as [|k IH]; [reflexivity|].
  change (replicate (S (S k)) false) with (false :: replicate (S k) false).
  change (last (false :: replicate (S k) false))
    with (last (replicate (S k) false)) at 1.
  exact IH.
Qed.

Lemma flag_after_stays_down (evs : list event) :
  Forall (fun e => logger_event e = true) evs -> flag_after false evs = false.
Proof.
  intros H. destruct (logger_events_flags evs H) as (k & Hk).
  unfold flag_after. rewrite Hk.
  destruct k as [|k]; [reflexivity|]. rewrite last_replicate_false. reflexivity.
Qed.

Lemma flag_after_stop (b : bool) (a c : list event) :
  Forall (fun e => logger_event e = true) (a ++ EvSetRunning false :: c) ->
  flag_after b (a ++ EvSetRunning false :: c) = false.
Proof.
  intros H. destruct (logger_events_flags _ H) as (k & Hk).
  unfold flag_after. rewrite Hk.
  destruct k as [|k].
  - unfold flag_history in Hk. rewrite omap_app in Hk. cbn in Hk.
    destruct (omap flag_of a); discriminate.
  - rewrite last_replicate_false. reflexivity.
Qed.

(** *** Counting the reads of a method *)

Lemma reads_silent {A : Type} (c : M session A) :
  (forall s, trace (env (c s).2) = trace (env s)) -> reads_at_most 0 c.
Proof.
  intros H s. exists []. rewrite H, app_nil_r. split; [reflexivity|].
  reflexivity.
Qed.

Lemma reads_weaken {A : Type} (k k' : nat) (c : M session A) :
  (k <= k')%nat -> reads_at_most k c -> reads_at_most k' c.
Proof.
  intros Hk Hc s. destruct (Hc s) as (evs & Ht & Hr). exists evs.
  split; [exact Ht|lia].
Qed.

Lemma reads_io {A : Type} (c : M world A) :
  emits not_read c -> reads_at_most 0 (io c).
Proof.
  intros Hc s. destruct (Hc (env s)) as (evs & Ht & Hp). exists evs.
  unfold io. destruct (c (env s)) as [r w]. cbn [snd self env] in Ht |- *.
  split; [exact Ht|]. rewrite (reads_none _ Hp). reflexivity.
Qed.

Lemma reads_bind {A B : Type} (k1 k2 : nat) (c : M session A)
    (k : A -> M session B) :
  reads_at_most k1 c -> (forall a, reads_at_most k2 (k a)) ->
  reads_at_most (k1 + k2) (bind c k).
Proof.
  intros Hc Hk s. destruct (Hc s) as (evs & Ht & Hr). unfold bind.
  destruct (c s) as [[a|e|] s1]; cbn [snd] in Ht |- *;
    try (exists evs; split; [exact Ht|lia]).
  destruct (Hk a s1) as (evs' & Ht' & Hr').
  exists (evs ++ evs'). rewrite Ht', Ht, app_assoc, reads_app.
  split; [reflexivity|lia].
Qed.

Lemma reads_try_except {A : Type} (k1 k2 : nat) (body : M session A)
    (handler : exception -> M session A) :
  reads_at_most k1 body -> (forall e, reads_at_most k2 (handler e)) ->
  reads_at_most (k1 + k2) (try_except body handler).
Proof.
  intros Hc Hk s. destruct (Hc s) as (evs & Ht & Hr). unfold try_except.
  destruct (body s) as [[a|[e|code]|] s1]; cbn [snd] in Ht |- *;
    try (exists evs; split; [exact Ht|lia]).
  destruct (Hk e s1) as (evs' & Ht' & Hr').
  exists (evs ++ evs'). rewrite Ht', Ht, app_assoc, reads_app.
  split; [reflexivity|lia].
Qed.

Lemma reads_item (stage_data : list Q) (i : nat) :
  reads_at_most 0 (item stage_data i).
Proof.
  apply reads_silent. intros s. unfold item.
  destruct (stage_data !! i); reflexivity.
Qed.

Create HintDb no_reads.

#[local] Hint Resolve emits_ret emits_raise emits_gets emits_of_sum
  emits_fs_call emits_advance emits_flush : no_reads.
#[local] Hint Resolve reads_item : no_reads.

(** Goals of the shape [reads_at_most 0 c], by the structure of [c]. *)
Ltac no_reads_step :=
  match goal with
  | |- reads_at_most 0 (bind _ _) => apply (reads_bind 0 0); [|intros ?]
  | |- reads_at_most 0 (try_except _ _) =>
      apply (reads_try_except 0 0); [|intros ?]
  | |- reads_at_most 0 (io _) => apply reads_io
  | |- reads_at_most 0 (store _) => apply reads_silent; intros ?; reflexivity
  | |- reads_at_most 0 (attr _) => apply reads_silent; intros ?; reflexivity
  | |- reads_at_most 0 (ret _) => apply reads_silent; intros ?; reflexivity
  | |- reads_at_most 0 (raise _) => apply reads_silent; intros ?; reflexivity
  | |- reads_at_most 0 exhausted => apply reads_silent; intros ?; reflexivity
  | |- emits _ (bind _ _) => apply emits_bind; [|intros ?]
  | |- emits _ (try_except _ _) => apply emits_try_except; [|intros ?]
  | |- emits _ (emit _) => apply emits_emit; reflexivity
  | |- emits _ (print _) => apply emits_print; reflexivity
  | |- emits _ (modify _) => apply emits_modify; intros ?; reflexivity
  | |- emits _ time_time => apply emits_gets
  | |- reads_at_most 0 (match ?x with _ => _ end) => destruct x
  | |- emits _ (match ?x with _ => _ end) => destruct x
  | |- _ => solve [auto with no_reads]
  end.

Ltac no_reads := repeat no_reads_step.

Lemma reads_signal_handler (signum : Z) :
  reads_at_most 0 (signal_handler signum).
Proof. unfold signal_handler. no_reads. Qed.

Lemma reads_deliver (n : nat) : reads_at_most 0 (deliver n).
Proof.
  induction n as [|n IH]; [apply reads_silent; reflexivity|].
  cbn [deliver]. apply (reads_bind 0 0); [apply reads_signal_handler|].
  intros _. exact IH.
Qed.

Lemma reads_initialize_tem : reads_at_most 0 initialize_tem.
Proof. unfold initialize_tem. no_reads. Qed.

Lemma reads_setup_csv_file : reads_at_most 0 setup_csv_file.
Proof. unfold setup_csv_file, write. no_reads. Qed.

Lemma reads_log_position (d : position) (w : option exception) (t : Q) :
  reads_at_most 0 (log_position d w t).
Proof. unfold log_position, write. no_reads. Qed.

Lemma reads_time_sleep (d : pyfloat) (n : nat) :
  reads_at_most 0 (time_sleep d n).
Proof. unfold time_sleep. no_reads; apply reads_deliver. Qed.

Lemma reads_cleanup : reads_at_most 0 cleanup.
Proof. unfold cleanup, close_file, call_tem. no_reads. Qed.

Lemma reads_get_stage_position (r : read_result) (d : Q) :
  reads_at_most 1 (get_stage_position r d).
Proof.
  unfold get_stage_position.
  apply (reads_try_except 1 0).
  - apply (reads_bind 1 0).
    + unfold Stage3_GetPos. apply (reads_bind 0 1).
      * apply reads_silent. reflexivity.
      * intros t. destruct t as [drv|].
        -- apply (reads_bind 1 0).
           ++ intros s. exists [EvTem GetPos]. split; reflexivity.
           ++ intros _. no_reads.
        -- apply (reads_weaken 0 1); [lia|]. no_reads.
    + intros stage_data. no_reads.
  - intros e. no_reads.
Qed.

Lemma reads_iteration (t : tick) (n : nat) (start : Q) :
  reads_at_most 1 (iteration t n start).
Proof.
  unfold iteration.
  apply (reads_bind 0 1); [apply reads_deliver|intros _].
  apply (reads_bind 1 0); [apply reads_get_stage_position|intros position_data].
  apply (reads_bind 0 0); [apply reads_deliver|intros _].
  apply (reads_bind 0 0).
  - destruct position_data as [d|]; [|no_reads].
    apply (reads_bind 0 0); [apply reads_log_position|intros ok].
    no_reads.
  - intros m. apply (reads_bind 0 0); [no_reads|intros i].
    apply (reads_bind 0 0); [apply reads_time_sleep|intros _]. no_reads.
Qed.

(** *** Heeding the flag *)

Lemma stops_promptly_few (evs : list event) :
  (reads evs <= 1)%nat -> stops_promptly evs.
Proof.
  intros H a c ->. pose proof (reads_after a c (EvSetRunning false)). lia.
Qed.

Lemma stops_promptly_app (b : bool) (evs1 evs2 : list event) :
  Forall (fun e => logger_event e = true) evs1 ->
  stops_promptly evs1 ->
  stops_promptly evs2 ->
  (flag_after b evs1 = false -> reads evs2 = 0%nat) ->
  stops_promptly (evs1 ++ evs2).
Proof.
  intros Hp H1 H2 Hdown a c Heq.
  apply app_eq_app in Heq as (l & [[Ha Hc]|[Ha Hc]]).
  - destruct l as [|x l].
    + cbn in Hc. apply (H2 [] c). symmetry. exact Hc.
    + cbn in Hc. injection Hc as <- ->.
      rewrite reads_app, Hdown.
      * pose proof (H1 a l Ha). lia.
      * rewrite Ha. apply flag_after_stop. rewrite <- Ha. exact Hp.
  - apply (H2 l c). exact Hc.
Qed.

Lemma heeds_flag_quiet {A : Type} (c : M session A) :
  orderly c -> reads_at_most 0 c -> heeds_flag c.
Proof.
  intros Ho Hr s. destruct (Ho s) as (evs & Ht & Hp & Hrun).
  destruct (Hr s) as (evs' & Ht' & Hz).
  rewrite Ht in Ht'. apply app_inv_head in Ht'. subst evs'.
  exists evs. split; [exact Ht|]. split; [exact Hp|]. split; [exact Hrun|].
  split; [intros _; lia|]. apply stops_promptly_few. lia.
Qed.

(** What a continuation that heeds the flag adds to a prefix that
    does. *)
Lemma heeds_flag_then (s s1 s2 : session) (evs : list event) :
  trace (env s1) = trace (env s) ++ evs ->
  Forall (fun e => logger_event e = true) evs ->
  running (self s1) = flag_after (running (self s)) evs ->
  (running (self s) = false -> reads evs = 0%nat) ->
  stops_promptly evs ->
  (exists evs',
     trace (env s2) = trace (env s1) ++ evs' /\
     Forall (fun e => logger_event e = true) evs' /\
     running (self s2) = flag_after (running (self s1)) evs' /\
     (running (self s1) = false -> reads evs' = 0%nat) /\
     stops_promptly evs') ->
  exists evs',
    trace (env s2) = trace (env s) ++ evs' /\
    Forall (fun e => logger_event e = true) evs' /\
    running (self s2) = flag_after (running (self s)) evs' /\
    (running (self s) = false -> reads evs' = 0%nat) /\
    stops_promptly evs'.
Proof.
  intros Ht Hp Hr Hz Hs (evs' & Ht' & Hp' & Hr' & Hz' & Hs').
  exists (evs ++ evs').
  split; [rewrite Ht', Ht, app_assoc; reflexivity|].
  split; [apply Forall_app; split; assumption|].
  split; [rewrite Hr', Hr; apply flag_after_app|]. split.
  - intros Hdown. rewrite reads_app, (Hz Hdown), Hz'; [reflexivity|].
    rewrite Hr, Hdown. apply flag_after_stays_down. exact Hp.
  - apply (stops_promptly_app (running (self s))); try assumption.
    intros Hdown. apply Hz'. rewrite Hr. exact Hdown.
Qed.

Lemma heeds_flag_bind {A B : Type} (c : M session A) (k : A -> M session B) :
  heeds_flag c -> (forall a, heeds_flag (k a)) -> heeds_flag (bind c k).
Proof.
  intros Hc Hk s. destruct (Hc s) as (evs & Ht & Hp & Hr & Hz & Hs).
  unfold bind.
  destruct (c s) as [[a|e|] s1]; cbn [snd] in Ht, Hr |- *;
    try (exists evs; repeat split; assumption).
  eapply heeds_flag_then; [exact Ht|exact Hp|exact Hr|exact Hz|exact Hs|].
  apply Hk.
Qed.

Lemma heeds_flag_try_except {A : Type} (body : M session A)
    (handler : exception -> M session A) :
  heeds_flag body -> (forall e, heeds_flag (handler e)) ->
  heeds_flag (try_except body handler).
Proof.
  intros Hc Hk s. destruct (Hc s) as (evs & Ht & Hp & Hr & Hz & Hs).
  unfold try_except.
  destruct (body s) as [[a|[e|code]|] s1]; cbn [snd] in Ht, Hr |- *;
    try (exists evs; repeat split; assumption).
  eapply heeds_flag_then; [exact Ht|exact Hp|exact Hr|exact Hz|exact Hs|].
  apply Hk.
Qed.

Lemma heeds_flag_try_finally {A : Type} (body : M session A)
    (final : M session unit) :
  heeds_flag body -> heeds_flag final -> heeds_flag (try_finally body final).
Proof.
  intros Hc Hk s. destruct (Hc s) as (evs & Ht & Hp & Hr & Hz & Hs).
  unfold try_finally.
  destruct (body s) as [[a|e|] s1]; cbn [snd] in Ht, Hr |- *;
    try (exists evs; repeat split; assumption);
    (eapply heeds_flag_then;
       [exact Ht|exact Hp|exact Hr|exact Hz|exact Hs|]);
    specialize (Hk s1); destruct (final s1) as [[[]|e'|] s2]; exact Hk.
Qed.

Lemma heeds_flag_silent {A : Type} (c : M session A) :
  (forall s, (c s).2 = s) -> heeds_flag c.
Proof.
  intros H. apply heeds_flag_quiet.
  - apply orderly_nothing. exact H.
  - apply reads_silent. intros s. rewrite H. reflexivity.
Qed.

Lemma heeds_flag_loop (ts : list tick) (n : nat) (start : Q) :
  heeds_flag (loop ts n start).
Proof.
  assert (Hnone : forall s s' : session,
            s' = s ->
            exists evs,
              trace (env s') = trace (env s) ++ evs /\
              Forall (fun e => logger_event e = true) evs /\
              running (self s') = flag_after (running (self s)) evs /\
              (running (self s) = false -> reads evs = 0%nat) /\
              stops_promptly evs).
  { intros s s' ->. exists []. rewrite app_nil_r.
    split; [reflexivity|]. split; [constructor|].
    split; [reflexivity|]. split; [reflexivity|].
    intros a c Heq. destruct a; discriminate. }
  revert n. induction ts as [|t ts IH]; intros n s;
    (assert (Hcase : running (self s) = true \/ running (self s) = false)
       by (destruct (running (self s)); auto));
    destruct Hcase as [Hrun|Hrun];
    try (rewrite (loop_stopped _ _ _ _ Hrun); apply Hnone; reflexivity).
  - assert (Heq : loop [] n start s = (Exhausted, s)).
    { cbn [loop]. erewrite bind_ret_eq by reflexivity. cbn beta.
      rewrite Hrun. reflexivity. }
    rewrite Heq. apply Hnone. reflexivity.
  - assert (Heq : loop (t :: ts) n start s =
                    (do m <- iteration t n start; loop ts m start) s).
    { cbn [loop]. erewrite bind_ret_eq by reflexivity. cbn beta.
      rewrite Hrun. reflexivity. }
    rewrite Heq. clear Heq.
    destruct (orderly_iteration t n start s) as (evs & Ht & Hp & Hr).
    destruct (reads_iteration t n start s) as (evs' & Ht' & Hone).
    rewrite Ht in Ht'. apply app_inv_head in Ht'. subst evs'.
    unfold bind.
    destruct (iteration t n start s) as [[m|e|] s1]; cbn [snd] in Ht, Hr |- *;
      try (exists evs; split; [exact Ht|]; split; [exact Hp|];
           split; [exact Hr|]; split; [congruence|];
           apply stops_promptly_few; exact Hone).
    destruct (IH m s1) as (evs2 & Ht2 & Hp2 & Hr2 & Hz2 & Hs2).
    exists (evs ++ evs2).
    split; [rewrite Ht2, Ht, app_assoc; reflexivity|].
    split; [apply Forall_app; split; assumption|].
    split; [rewrite Hr2, Hr; apply flag_after_app|].
    split; [congruence|].
    apply (stops_promptly_app (running (self s))); try assumption.
    + apply stops_promptly_few. exact Hone.
    + intros Hdown. apply Hz2. rewrite Hr. exact Hdown.
Qed.

Lemma heeds_flag_run (sc : script) : heeds_flag (run sc).
Proof.
  unfold run.
  apply heeds_flag_bind; [apply heeds_flag_silent; reflexivity|intros p].
  apply heeds_flag_bind; [apply heeds_flag_silent; reflexivity|intros i].
  apply heeds_flag_bind;
    [apply heeds_flag_quiet; [orderly|no_reads]|intros _].
  apply heeds_flag_bind;
    [apply heeds_flag_quiet; [apply orderly_deliver|apply reads_deliver]
    |intros _].
  apply heeds_flag_bind;
    [apply heeds_flag_quiet;
       [apply orderly_initialize_tem|apply reads_initialize_tem]
    |intros ok].
  destruct ok; cbn [negb].
  2:{ apply heeds_flag_bind;
        [apply heeds_flag_quiet; [orderly|no_reads]|intros _].
      apply heeds_flag_silent. reflexivity. }
  apply heeds_flag_bind;
    [apply heeds_flag_quiet;
       [apply orderly_setup_csv_file|apply reads_setup_csv_file]
    |intros ok].
  destruct ok; cbn [negb].
  2:{ apply heeds_flag_bind;
        [apply heeds_flag_quiet; [orderly|no_reads]|intros _].
      apply heeds_flag_silent. reflexivity. }
  apply heeds_flag_bind;
    [apply heeds_flag_quiet; [orderly|no_reads]|intros start_time].
  apply heeds_flag_bind; [|intros _; apply heeds_flag_silent; reflexivity].
  apply heeds_flag_try_finally;
    [|apply heeds_flag_quiet; [apply orderly_cleanup|apply reads_cleanup]].
  apply heeds_flag_try_except.
  - apply heeds_flag_bind; [apply heeds_flag_loop|intros _].
    apply heeds_flag_silent. reflexivity.
  - intros e. apply heeds_flag_quiet; [orderly|no_reads].
Qed.

(** X12.  In every run, a stop request ends the loop within the iteration
    it arrives in: after any store of [False] to [running] (an interrupt
    at any point: before the loop, between the test of the flag and the
    read, during a read, during a sleep) one more stage read is started
    at most, the one of the iteration under way. *)
Theorem run_stops_within_one_read
    (sc : script) (s : session) (a c : list event) :
  new_events (env s) (env (run sc s).2) = a ++ EvSetRunning false :: c ->
  (reads c <= 1)%nat.
Proof.
  intros H.
  destruct (heeds_flag_run sc s) as (evs & Ht & _ & _ & _ & Hs).
  rewrite (new_events_app _ _ _ Ht) in H. exact (Hs a c H).
Qed.

(** An interrupt between the test of the flag and the read of the
    second iteration: that read is still made, and it is the last. *)
Lemma run_stops_within_one_read_witness :
  let late := {| reading := ReadOk [1; 2; 3; 4; 5]%Q; read_time := 1 # 20;
                 write_error := None; write_time := 0;
                 sigint_before_read := 1; sigint_in_read := 0;
                 sigint_in_sleep := 0 |} in
  let sc := {| early_sigint := 0;
               ticks := [good_tick None 0; late; good_tick None 0] |} in
  let s := {| self := new_logger ["out.csv"] (Fin (1 # 10));
              env := world0 lab [] |} in
  let evs := new_events (env s) (env (run sc s).2) in
  evs = take 9 evs ++ EvSetRunning false :: drop 10 evs /\
  reads (take 9 evs) = 1%nat /\
  reads (drop 10 evs) = 1%nat.
Proof.
  intros late sc s evs.
  assert (H : evs = take 9 evs ++ EvSetRunning false :: drop 10 evs)
    by (vm_compute; reflexivity).
  split; [exact H|]. split; [vm_compute; reflexivity|].
  pose proof (run_stops_within_one_read sc s _ _ H) as Hle.
  assert (Hge : (1 <= reads (drop 10 evs))%nat) by (vm_compute; lia).
  lia.
Defined.

(** ** When [run] fails, and what it always does when it does not *)

Lemma setup_csv_file_opens (s : session) :
  cannot_open (fs (env s)) (output_file (self s)) = None ->
  exists s',
    setup_csv_file s = (Ret true, s') /\
    rtc step s s' /\
    output_file (self s') = output_file (self s) /\
    csv_file (self s') =
      Some {| h_path := output_file (self s); h_closed := false |} /\
    exists evs, trace (env s') = trace (env s) ++ evs.
Proof.
  unfold cannot_open. intros H.
  destruct (mkdir_parents (parent (output_file (self s))) (fs (env s)))
    as [e1|f1] eqn:Hmk; [discriminate|].
  destruct (open_append (output_file (self s)) f1) as [e2|f2] eqn:Hop;
    [discriminate|]. clear H.
  pose proof (reaches_setup_csv_file s is_exception s (rtc_refl _ _))
    as [Hreach _].
  assert (Hc : (setup_csv_file s).1 = Ret true /\
               output_file (self (setup_csv_file s).2) = output_file (self s) /\
               csv_file (self (setup_csv_file s).2) =
                 Some {| h_path := output_file (self s); h_closed := false |} /\
               exists evs,
                 trace (env (setup_csv_file s).2) = trace (env s) ++ evs).
  { clear Hreach. destruct s as [l w]. cbn [self env] in *.
    unfold setup_csv_file, write, fs_call, print, emit, try_except, bind, attr,
      gets, io, of_sum, store, modify, raise, ret.
    cbn [fst snd self env fs with_fs with_self].
    rewrite Hmk. cbn [fst snd self env fs with_fs with_self]. rewrite Hop.
    cbn [fst snd self env fs with_fs with_self].
    destruct (exists_ f1 (output_file l)); cbn [negb fst snd self env];
      (split; [reflexivity|]); (split; [reflexivity|]);
      (split; [reflexivity|]);
      cbn [env self trace with_trace with_fs with_self fs with_unflushed
           unflushed];
      rewrite <- ?app_assoc; eexists; reflexivity. }
  destruct Hc as (H1 & H2 & H3 & H4).
  exists (setup_csv_file s).2. split; [|auto].
  destruct (setup_csv_file s) as [r s']. cbn [fst] in H1. rewrite H1. reflexivity.
Qed.

(** [run] up to its [try] block, when the driver is bound and the log
    opened. *)
Lemma run_enters_loop (sc : script) (s : session) :
  tem_binding (host (env s)) = None ->
  cannot_open (fs (env s)) (output_file (self s)) = None ->
  exists s3 start,
    run sc s =
      (do _ <- try_finally
                 (try_except
                    (do _ <- loop (ticks sc) 0 start; ret tt)
                    (fun e => io (print (MsgUnexpected e))))
                 cleanup;
       ret true) s3 /\
    output_file (self s3) = output_file (self s) /\
    csv_file (self s3) =
      Some {| h_path := output_file (self s); h_closed := false |} /\
    exists evs, trace (env s3) = trace (env s) ++ evs.
Proof.
  intros Hb He. unfold run.
  do 3 (erewrite bind_ret_eq by reflexivity; cbn beta).
  match goal with
  | |- context [bind (deliver ?n) _ ?s0] =>
      destruct (deliver_spec n s0) as (s1 & Hd & Hs & Ht & _)
  end.
  erewrite bind_ret_eq by exact Hd. cbn beta.
  apply undisturbed_fields in Hs.
  destruct Hs as (Ho & _ & _ & _ & Hf & Hh & Hfs & _).
  cbn [self env host fs with_trace] in Ho, Hf, Hh, Hfs, Ht.
  erewrite bind_ret_eq
    by (apply initialize_tem_binds; rewrite Hh; exact Hb).
  cbn beta iota. cbn [negb].
  match goal with
  | |- context [bind setup_csv_file _ ?s2] =>
      destruct (setup_csv_file_opens s2) as (s3 & Hsetup & _ & Ho3 & Hf3 & evs & Ht3)
  end.
  { cbn [self env fs with_trace set_tem output_file]. rewrite Ho, Hfs. exact He. }
  cbn [self env fs with_trace set_tem output_file trace] in Ho3, Hf3, Ht3.
  erewrite bind_ret_eq by exact Hsetup. cbn beta iota. cbn [negb].
  erewrite bind_ret_eq by reflexivity. cbn beta.
  exists {| self := self s3; env := env s3 |}, (clock (env s3)).
  split; [reflexivity|]. cbn [self env].
  split; [congruence|]. split; [congruence|].
  eexists. rewrite Ht3, Ht. cbn [trace with_trace].
  rewrite <- !app_assoc. reflexivity.
Qed.

Lemma reaches_try_block (s0 : session) (E : exn -> Prop)
    (ts : list tick) (n : nat) (start : Q) :
  hoare (rtc step s0)
    (try_except (do _ <- loop ts n start; ret tt)
       (fun e => io (print (MsgUnexpected e))))
    (reaches s0 E).
Proof.
  apply reaches_try_except.
  - apply reaches_bind; [apply reaches_loop|intros _]. apply reaches_ret.
  - intros e. apply reaches_print.
Qed.

(** The handle of the log along the actions of a logger: once there,
    it stays a handle on the log, and the trace only grows. *)
Lemma steps_keep_handle (s0 s : session) (h0 : handle) :
  csv_file (self s0) = Some h0 ->
  h_path h0 = output_file (self s0) ->
  rtc step s0 s ->
  output_file (self s) = output_file (self s0) /\
  (exists h, csv_file (self s) = Some h /\ h_path h = output_file (self s0)) /\
  exists evs, trace (env s) = trace (env s0) ++ evs.
Proof.
  intros Hf0 Hp0. revert s. apply rtc_ind_r.
  { split; [reflexivity|]. split; [eauto|]. exists []. rewrite app_nil_r. reflexivity. }
  intros s1 s2 _ Hstep (Ho & (h & Hh & Hp) & evs & Ht).
  destruct Hstep as [s m|s|s|s Htem|s d|s f' Hmk|s f' Hop|s|s h' r Hc Hcl
                    |s h' Hc|s Hce|s|s h' Hc|s d Htem Hor];
    cbn [emitted on_env with_self self env trace with_trace with_fs with_clock
         with_unflushed output_file csv_file set_running set_tem set_csv_file
         set_csv_writer];
    (split; [exact Ho|]); split;
    try (exists h; split; [exact Hh|exact Hp]);
    try (rewrite Ht, <- ?app_assoc; eexists; reflexivity);
    try (exists evs; exact Ht).
  - eexists. split; [reflexivity|]. cbn. exact Ho.
  - eexists. split; [reflexivity|]. cbn. congruence.
Qed.

Lemma cleanup_closes (s : session) (h : handle) :
  csv_file (self s) = Some h ->
  csv_file (self (cleanup s).2) =
    Some {| h_path := h_path h; h_closed := true |} /\
  exists evs,
    trace (env (cleanup s).2) =
      trace (env s) ++ EvPrint MsgCleaningUp :: EvFileClose (h_path h) :: evs.
Proof.
  intros Hf. destruct s as [l w]. cbn [self] in Hf.
  unfold cleanup, close_file, flush, call_tem, try_except, print, emit, bind,
    attr, gets, io, store, modify, raise, ret.
  cbn [fst snd self env with_self with_trace trace host]. rewrite Hf.
  cbn [fst snd self env with_self with_trace trace host].
  destruct (h_closed h); [|destruct (close_error (host w)) as [e|]];
    cbn [fst snd self env with_self with_trace with_unflushed with_fs trace
         host set_csv_file tem csv_file];
    try (split; [reflexivity|]; rewrite <- ?app_assoc; eexists; reflexivity);
    (destruct (tem l) as [d|];
     [destruct (has_disconnect d);
      [destruct (connect_call d)
      |destruct (has_close d); [destruct (close_call d)|]]|]);
    cbn [fst snd self env with_self with_trace with_unflushed with_fs trace
         host set_csv_file tem csv_file];
    (split; [reflexivity|]); rewrite <- ?app_assoc; eexists; reflexivity.
Qed.

Lemma run_unbound (sc : script) (s : session) (e : exception) :
  tem_binding (host (env s)) = Some e -> (run sc s).1 = Ret false.
Proof.
  intros Hb. unfold run.
  do 3 (erewrite bind_ret_eq by reflexivity; cbn beta).
  match goal with
  | |- context [bind (deliver ?n) _ ?s0] =>
      destruct (deliver_spec n s0) as (s1 & Hd & Hs & _)
  end.
  erewrite bind_ret_eq by exact Hd. cbn beta.
  apply undisturbed_fields in Hs.
  destruct Hs as (_ & _ & _ & _ & _ & Hh & _).
  cbn [self env host with_trace] in Hh.
  erewrite bind_ret_eq
    by (apply initialize_tem_fails; rewrite Hh; exact Hb).
  cbn beta iota. cbn [negb].
  erewrite bind_ret_eq by reflexivity. reflexivity.
Qed.

(** X13.  [run] returns [False] in two cases only: the driver cannot be
    bound, or the log file cannot be opened.  Whatever happens once the
    loop is entered (failed reads, failed writes, a sleep that raises, a
    driver that raises in [cleanup]), the result is not [False]. *)
Theorem run_fails_only_at_setup (sc : script) (s : session) :
  (run sc s).1 = Ret false <->
  tem_binding (host (env s)) <> None \/
  cannot_open (fs (env s)) (output_file (self s)) <> None.
Proof.
  destruct (tem_binding (host (env s))) as [e|] eqn:Hb.
  { split; [intros _; left; discriminate|intros _].
    exact (run_unbound sc s e Hb). }
  destruct (cannot_open (fs (env s)) (output_file (self s))) as [e|] eqn:He.
  { split; [intros _; right; discriminate|intros _].
    destruct (run_without_log sc s e Hb He) as (s' & -> & _). reflexivity. }
  split; [|intros [H|H]; congruence].
  destruct (run_enters_loop sc s Hb He) as (s3 & start & -> & _).
  unfold bind at 1.
  destruct (try_finally _ _ s3) as [[[]|e|] s5]; discriminate.
Qed.

(** X14.  Once the log is open, [run] always closes it before it ends: on a
    stop request as on an exception of the loop, the handle is closed
    when [run] returns or raises, and the close is in the trace. *)
Theorem run_always_closes_the_log (sc : script) (s : session) :
  tem_binding (host (env s)) = None ->
  cannot_open (fs (env s)) (output_file (self s)) = None ->
  (run sc s).1 <> Exhausted ->
  let p := output_file (self s) in
  csv_file (self (run sc s).2) = Some {| h_path := p; h_closed := true |} /\
  In (EvFileClose p) (new_events (env s) (env (run sc s).2)).
Proof.
  intros Hb He Hend p.
  destruct (run_enters_loop sc s Hb He)
    as (s3 & start & Hrun & Ho3 & Hf3 & evs3 & Ht3).
  rewrite Hrun in Hend |- *. clear Hrun.
  set (body := try_except (do _ <- loop (ticks sc) 0 start; ret tt)
                 (fun e => io (print (MsgUnexpected e)))) in *.
  destruct (reaches_try_block s3 is_exception (ticks sc) 0 start s3
              (rtc_refl _ _)) as [Hreach _].
  fold body in Hreach.
  destruct (steps_keep_handle s3 _ _ Hf3 (eq_sym Ho3) Hreach)
    as (_ & (h & Hh & Hp) & evs4 & Ht4).
  destruct (cleanup_closes _ h Hh) as (Hc & evs5 & Ht5).
  assert (Hr : ((do _ <- try_finally body cleanup; ret true) s3).1 = Exhausted \/
               ((do _ <- try_finally body cleanup; ret true) s3).2 =
                 (cleanup (body s3).2).2).
  { unfold bind, try_finally, ret.
    destruct (body s3) as [[[]|e|] s4]; cbn [fst snd]; auto;
      destruct (cleanup s4) as [[[]|e'|] s5]; cbn [fst snd]; auto. }
  destruct Hr as [Hr|Hr]; [contradiction|]. rewrite Hr.
  split; [rewrite Hc, Hp, Ho3; reflexivity|].
  erewrite new_events_app.
  2:{ rewrite Ht5, Ht4, Ht3, <- !app_assoc. reflexivity. }
  rewrite Hp, Ho3. apply in_or_app. right. apply in_or_app. right.
  right. left. reflexivity.
Qed.

Lemma run_always_closes_the_log_witness :
  let s := {| self := new_logger ["out.csv"] (Fin (-1));
              env := world0 lab_disk_full [] |} in
  let sc := {| early_sigint := 0; ticks := [read_tick ReadRaises] |} in
  csv_file (self (run sc s).2) =
    Some {| h_path := ["out.csv"]; h_closed := true |} /\
  In (EvFileClose ["out.csv"]) (new_events (env s) (env (run sc s).2)).
Proof.
  intros s sc.
  apply (run_always_closes_the_log sc s); [reflexivity|reflexivity|].
  vm_compute. discriminate.
Defined.
